(** * go-smtp: a shallow embedding of [smtp.go] and its specification

    The Go package is a thin mail client: [New] builds a client value,
    [GetClient] opens an authenticated connection, [SendMail] drives one
    transmission and [ParseBody] fills [{{key}}] placeholders.

    Go strings are byte sequences and are modelled by [string]; Go [int]
    is modelled by [Z]; a Go [error] is [option string] ([None] is [nil])
    carrying the error text.  The calls into Go's standard library
    ([strconv], [strings], [fmt], [net/smtp]) are modelled by the small
    modules below; everything after them follows [smtp.go] line by line. *)

From Stdlib Require Import ZArith Ascii String.
From stdpp Require Import gmap strings list fin_maps.

Local Open Scope Z_scope.

(** A Go [error] value: [None] is [nil], [Some msg] carries [err.Error()]. *)
Definition error : Type := option string.

(** The usual Go result pair [(value, err)] in which exactly one side is set. *)
Inductive result (A : Type) : Type :=
  | Ok (a : A)
  | Err (e : string).
Arguments Ok {A} a.
Arguments Err {A} e.

Definition CR : ascii := "013"%char.
Definition LF : ascii := "010"%char.
Definition CRLF : string := String CR (String LF "").

(** ** Package [strconv] *)
Module strconv.

(** Go's [int] on a 64-bit platform. *)
Definition intSize : Z := 64.
Definition maxInt : Z := 2 ^ (intSize - 1) - 1.
Definition minInt : Z := - 2 ^ (intSize - 1).
Definition maxUint64 : Z := 2 ^ 64 - 1.

Definition digit_char (d : Z) : ascii := ascii_of_N (Z.to_N (48 + d)).

Definition digit_val (ch : ascii) : option Z :=
  let n := Z.of_N (N_of_ascii ch) in
  if (48 <=? n) && (n <=? 57) then Some (n - 48) else None.

(** [formatBits]: the digits of [u] are produced from the least
    significant one and pushed in front of what was written so far.
    Twenty rounds cover every 64-bit magnitude. *)
Fixpoint formatBits (rounds : nat) (u : Z) (buf : string) : string :=
  match rounds with
  | O => buf
  | S r =>
      let buf' := String (digit_char (u mod 10)) buf in
      if u <? 10 then buf' else formatBits r (u / 10) buf'
  end.

Definition Itoa (i : Z) : string :=
  if i <? 0 then String "-" (formatBits 20 (- i) "")
  else formatBits 20 i "".

Inductive NumError : Type := ErrSyntax | ErrRange.

(** The digit loop of [ParseUint] in base 10: a byte that is no digit
    is a syntax error, a value past 64 bits is a range error, whichever
    comes first. *)
Fixpoint parseDigits (s : string) (n : Z) : Z * option NumError :=
  match s with
  | EmptyString => (n, None)
  | String ch rest =>
      match digit_val ch with
      | None => (0, Some ErrSyntax)
      | Some d =>
          let n1 := n * 10 + d in
          if maxUint64 <? n1 then (maxUint64, Some ErrRange)
          else parseDigits rest n1
      end
  end.

Definition ParseUint (s : string) : Z * option NumError :=
  match s with
  | EmptyString => (0, Some ErrSyntax)
  | _ => parseDigits s 0
  end.

(** The end of [ParseInt]: the magnitude [un] gets its sign; a value
    that does not fit is clamped and reported as [ErrRange]. *)
Definition signed (neg : bool) (un : Z) : Z * option NumError :=
  let cutoff := 2 ^ (intSize - 1) in
  if negb neg && (cutoff <=? un) then (cutoff - 1, Some ErrRange)
  else if neg && (cutoff <? un) then (- cutoff, Some ErrRange)
  else (if neg then - un else un, None).

(** [Atoi s] is [ParseInt(s, 10, 0)]: an optional sign, then digits. *)
Definition Atoi (s : string) : Z * option NumError :=
  match s with
  | EmptyString => (0, Some ErrSyntax)
  | String c0 tl =>
      let neg := Ascii.eqb c0 "-" in
      let body := if neg || Ascii.eqb c0 "+" then tl else s in
      match ParseUint body with
      | (_, Some ErrSyntax) => (0, Some ErrSyntax)
      | (un, _) => signed neg un
      end
  end.

End strconv.

(** ** Package [strings] *)
Module strings.

(** [strings.Join(elems, sep)] *)
Fixpoint Join (elems : list string) (sep : string) : string :=
  match elems with
  | [] => ""
  | [a] => a
  | a :: rest => a +:+ sep +:+ Join rest sep
  end.

(** The scan of [strings.Replace] for a non-empty [old]: the leftmost
    occurrence is replaced, the scan resumes right after it, and at
    most [limit] replacements are made ([None]: no limit).  [skip]
    counts the bytes of a matched occurrence still to be passed over. *)
Fixpoint replaceFrom (old new : string) (limit : option nat) (skip : nat)
    (s : string) : string :=
  match s with
  | EmptyString => ""
  | String ch rest =>
      match skip with
      | S k => replaceFrom old new limit k rest
      | O =>
          match limit with
          | Some O => s
          | _ =>
              if String.prefix old s
              then new +:+ replaceFrom old new (pred <$> limit)
                             (Nat.pred (String.length old)) rest
              else String ch (replaceFrom old new limit 0 rest)
          end
      end
  end.

(** [strings.Replace(s, old, new, n)]; [n < 0] means no limit.  The
    case of an empty [old] (insertion at every rune boundary) is not
    used by this package, whose patterns always contain the four brace
    bytes, and is left out of the model: [s] is returned as it is. *)
Definition Replace (s old new : string) (n : Z) : string :=
  match old with
  | EmptyString => s
  | _ => replaceFrom old new (if n <? 0 then None else Some (Z.to_nat n)) 0 s
  end.

End strings.

(** ** Package [fmt]: the [%v] verb on the dynamic types used as
    template parameters *)
Inductive Value : Type :=
  | VString (s : string)
  | VInt (i : Z)
  | VBool (b : bool)
  | VNil.

Definition Sprintf_v (value : Value) : string :=
  match value with
  | VString s => s
  | VInt i => strconv.Itoa i
  | VBool true => "true"
  | VBool false => "false"
  | VNil => "<nil>"
  end.

(** ** Package [net/smtp]: the transport

    The wire protocol is the collaborator's business.  What this package
    can observe is which calls it makes, in which order, and whether each
    one succeeds.  A [Server] answers a call from the calls made before
    it, so any deterministic peer, however it reacts, is some [Server]. *)
Module net_smtp.

Record plainAuth : Type := mkPlainAuth {
  identity : string;
  username : string;
  password : string;
  host : string
}.

(** The interface [smtp.Auth]; [None] is the nil interface value. *)
Definition Auth : Type := option plainAuth.

(** [smtp.PlainAuth] wraps its arguments in a [*plainAuth] and returns
    it; it inspects none of them. *)
Definition PlainAuth (identity username password host : string) : Auth :=
  Some (mkPlainAuth identity username password host).

Record tlsConfig : Type := mkTlsConfig {
  InsecureSkipVerify : bool;
  ServerName : string
}.

Inductive Call : Type :=
  | CallDial (addr : string)
  | CallStartTLS (config : tlsConfig)
  | CallAuth (a : Auth)
  | CallMail (from : string)
  | CallRcpt (to : string)
  | CallData
  | CallWrite (p : string)
  | CallWriterClose
  | CallClose.

Definition Server : Type := list Call -> Call -> error.

(** What a run leaves behind: the calls made on the transport, oldest
    first, and the lines printed on standard output. *)
Record World : Type := mkWorld {
  wire : list Call;
  stdout : list string
}.

(** Handles: [*smtp.Client] and the [io.WriteCloser] of the data phase. *)
Record Client : Type := mkClient { dialled : string }.
Record Writer : Type := mkWriter { owner : Client }.

End net_smtp.
Import net_smtp.

(** ** Effects: a state monad over [World] *)
Definition M (A : Type) : Type := World -> A * World.

Definition ret {A : Type} (a : A) : M A := fun w => (a, w).

Definition bind {A B : Type} (m : M A) (k : A -> M B) : M B :=
  fun w => let (a, w') := m w in k a w'.

Notation "'let*' x ':=' m 'in' k" := (bind m (fun x => k))
  (at level 10, x name, m at level 100, k at level 200, only parsing).

(** [defer d] around a body: the body runs to its [return], whose operand
    is evaluated then; [d] runs afterwards.  The functions of this package
    have unnamed results, so nothing [d] does can replace that value. *)
Definition defer {A : Type} (d : M unit) (body : M A) : M A :=
  let* r := body in
  let* _ := d in
  ret r.

Definition Printf (line : string) : M unit :=
  fun w => (tt, mkWorld (wire w) (stdout w ++ [line])).

Section Transport.

Variable srv : Server.

Definition call (c : Call) : M error :=
  fun w => (srv (wire w) c, mkWorld (wire w ++ [c]) (stdout w)).

Definition Dial (addr : string) : M (result Client) :=
  let* err := call (CallDial addr) in
  match err with
  | Some e => ret (Err e)
  | None => ret (Ok (mkClient addr))
  end.

Definition StartTLS (client : Client) (config : tlsConfig) : M error :=
  call (CallStartTLS config).

Definition DoAuth (client : Client) (a : Auth) : M error :=
  call (CallAuth a).

Definition Mail (client : Client) (from : string) : M error :=
  call (CallMail from).

Definition Rcpt (client : Client) (to : string) : M error :=
  call (CallRcpt to).

Definition Data (client : Client) : M (result Writer) :=
  let* err := call CallData in
  match err with
  | Some e => ret (Err e)
  | None => ret (Ok (mkWriter client))
  end.

Definition Write (w : Writer) (p : string) : M error :=
  call (CallWrite p).

Definition WriterClose (w : Writer) : M error :=
  call CallWriterClose.

Definition Close (client : Client) : M error :=
  call CallClose.

End Transport.

(** ** The package itself ([smtp.go]) *)

Record Email : Type := mkEmail {
  To : list string;
  Cc : list string;
  Bcc : list string;
  Subject : string;
  Body : string
}.

Record SMTP : Type := mkSMTP {
  senderAddress : string;
  password : string;
  host : string;
  port : string;
  auth : Auth
}.

(** The body of [New], with the constructor of the token, [smtp.PlainAuth]
    in the source, left open: the only failure is a nil token. *)
Definition NewWith (plainAuth : string -> string -> string -> string -> Auth)
    (senderAddress password host : string) (port : Z) : result SMTP :=
  let auth := plainAuth "" senderAddress password host in
  match auth with
  | None => Err "auth error, empty auth"
  | Some _ =>
      Ok {| senderAddress := senderAddress;
            password := password;
            host := host;
            port := strconv.Itoa port;
            auth := auth |}
  end.

(** [New], with the [smtp.PlainAuth] of Go's library. *)
Definition New (senderAddress password host : string) (port : Z) : result SMTP :=
  NewWith PlainAuth senderAddress password host port.

Definition GetSenderAddress (c : SMTP) : string := senderAddress c.

Definition GetPassword (c : SMTP) : string := password c.

Definition GetHost (c : SMTP) : string := host c.

(** [port, _ := strconv.Atoi(c.port)]: the error is dropped. *)
Definition GetPort (c : SMTP) : Z := fst (strconv.Atoi (port c)).

(** Lines 126-143 of [SendMail]: the payload of the data phase. *)
Definition message (email : Email) : string :=
  let ccStmt :=
    if negb (length (Cc email) =? 0)%nat
    then "Cc: " +:+ strings.Join (Cc email) "," +:+ CRLF
    else "" in
  let bccStmt :=
    if negb (length (Bcc email) =? 0)%nat
    then "Bcc: " +:+ strings.Join (Bcc email) "," +:+ CRLF
    else "" in
  "Subject: " +:+ Subject email +:+ CRLF +:+
  "To: " +:+ strings.Join (To email) "," +:+ CRLF +:+
  ccStmt +:+
  bccStmt +:+
  CRLF +:+
  Body email +:+ CRLF.

Section Package.

Variable srv : Server.

Definition GetClient (c : SMTP) : M (result Client) :=
  let* r := Dial srv (host c +:+ ":" +:+ port c) in
  match r with
  | Err e => ret (Err ("client error, failed to dial; " +:+ e))
  | Ok client =>
      let* err := StartTLS srv client (mkTlsConfig true (host c)) in
      match err with
      | Some e => ret (Err ("client error, failed to start tls; " +:+ e))
      | None =>
          let* err := DoAuth srv client (auth c) in
          match err with
          | Some e => ret (Err ("client error, failed to apply auth; " +:+ e))
          | None =>
              let* err := Mail srv client (senderAddress c) in
              match err with
              | Some e => ret (Err ("client error, failed to create mail; " +:+ e))
              | None => ret (Ok client)
              end
          end
      end
  end.

(** The loop over [email.To]: [Some e] when the body returned [e] from
    [SendMail], [None] when the loop ran to its end. *)
Fixpoint rcptLoop (client : Client) (to : list string) : M (option string) :=
  match to with
  | [] => ret None
  | addr :: rest =>
      let* err := Rcpt srv client addr in
      match err with
      | Some e => ret (Some ("send error, failed to add recipients; " +:+ e))
      | None => rcptLoop client rest
      end
  end.

(** The deferred closure of [SendMail]: it closes the writer, keeps the
    outcome in the local [err] and prints it when it is not nil. *)
Definition closeWriter (w : Writer) : M unit :=
  let* err := WriterClose srv w in
  match err with
  | Some e =>
      Printf ("send error, failed to close email writer; " +:+ e +:+ String LF "")
  | None => ret tt
  end.

Definition SendMail (c : SMTP) (email : Email) : M error :=
  let* r := GetClient c in
  match r with
  | Err e => ret (Some e)
  | Ok client =>
      defer (let* _ := Close srv client in ret tt)
        (let* returned := rcptLoop client (To email) in
         match returned with
         | Some e => ret (Some e)
         | None =>
             let* r := Data srv client in
             match r with
             | Err e => ret (Some ("send error, failed to create data; " +:+ e))
             | Ok w =>
                 defer (closeWriter w)
                   (let* err := Write srv w (message email) in
                    match err with
                    | Some e =>
                        ret (Some ("send error, failed to send email from " +:+
                                   senderAddress c +:+ " [" +:+ host c +:+ ":" +:+
                                   port c +:+ "], " +:+ e))
                    | None => ret None
                    end)
             end
         end)
  end.

End Package.

(** [ParseBody].  Go visits the entries of a map in an unspecified order
    that may change from one [range] to the next; [ParseBody] therefore
    takes the order of the visit, [kvs], and [visits parameters kvs] says
    that [kvs] is one of the orders in which [parameters] can be visited.
    The receiver is not used by the method and is left out. *)
Fixpoint ParseBody (body : string) (kvs : list (string * Value)) : string :=
  match kvs with
  | [] => body
  | (key, value) :: rest =>
      let placeholder := "{{" +:+ key +:+ "}}" in
      ParseBody (strings.Replace body placeholder (Sprintf_v value) (-1)) rest
  end.

Definition visits (parameters : gmap string Value) (kvs : list (string * Value)) : Prop :=
  kvs ≡ₚ map_to_list parameters.

(** ** Vocabulary of the specification *)

(** The error kinds of the specification, each with the text its
    [fmt.Errorf] call produces. *)
Definition AuthError : string := "auth error, empty auth".
Definition ConnectionError (e : string) : string := "client error, failed to dial; " +:+ e.
Definition TLSError (e : string) : string := "client error, failed to start tls; " +:+ e.
Definition AuthFailure (e : string) : string := "client error, failed to apply auth; " +:+ e.
Definition EnvelopeError (e : string) : string := "client error, failed to create mail; " +:+ e.
Definition RecipientError (e : string) : string := "send error, failed to add recipients; " +:+ e.
Definition DataPhaseError (e : string) : string := "send error, failed to create data; " +:+ e.
Definition SendError (c : SMTP) (e : string) : string :=
  "send error, failed to send email from " +:+ senderAddress c +:+
  " [" +:+ host c +:+ ":" +:+ port c +:+ "], " +:+ e.
Definition CleanupWarning (e : string) : string :=
  "send error, failed to close email writer; " +:+ e +:+ String LF "".

(** The calls of the connection-opening phase, in order. *)
Definition handshake (c : SMTP) : list Call :=
  [ CallDial (host c +:+ ":" +:+ port c);
    CallStartTLS (mkTlsConfig true (host c));
    CallAuth (auth c);
    CallMail (senderAddress c) ].

(** [accepted srv h calls]: made one after the other once [h] has
    happened, every call of [calls] succeeds. *)
Fixpoint accepted (srv : Server) (h : list Call) (calls : list Call) : bool :=
  match calls with
  | [] => true
  | c :: rest =>
      match srv h c with
      | None => accepted srv (h ++ [c]) rest
      | Some _ => false
      end
  end.

(** The calls on the wire once a run started after [h] has entered the
    data phase. *)
Definition entered_data (c : SMTP) (email : Email) (h : list Call) : list Call :=
  h ++ handshake c ++ (CallRcpt <$> To email) ++ [CallData].

(** The four ways out of [SendMail] with the peer [srv], each with the
    value returned and the world it leaves. *)
Inductive exit_path (srv : Server) (c : SMTP) (email : Email) (w0 : World) :
    error * World -> Prop :=
  | exit_handshake (e : string) (w1 : World) :
      GetClient srv c w0 = (Err ("client error, " +:+ e), w1) ->
      exit_path srv c email w0 (Some ("client error, " +:+ e), w1)
  | exit_recipient (pre : list string) (addr : string) (post : list string) (msg : string) :
      To email = pre ++ addr :: post ->
      exit_path srv c email w0
        (Some (RecipientError msg),
         mkWorld (wire w0 ++ handshake c ++ (CallRcpt <$> pre) ++ [CallRcpt addr; CallClose])
                 (stdout w0))
  | exit_data (e : string) :
      exit_path srv c email w0
        (Some (DataPhaseError e),
         mkWorld (wire w0 ++ handshake c ++ (CallRcpt <$> To email) ++ [CallData; CallClose])
                 (stdout w0))
  | exit_written (r : error) (out : list string) :
      r = None \/ (exists e, r = Some (SendError c e)) ->
      exit_path srv c email w0
        (r,
         mkWorld (entered_data c email (wire w0) ++
                  [CallWrite (message email); CallWriterClose; CallClose]) out).

Definition isClose (c : Call) : bool :=
  match c with CallClose => true | _ => false end.

Definition isRcpt (c : Call) : bool :=
  match c with CallRcpt _ => true | _ => false end.

Definition isData (c : Call) : bool :=
  match c with CallData => true | _ => false end.

(** How many calls of a trace satisfy [p]. *)
Definition count (p : Call -> bool) (calls : list Call) : nat :=
  length (List.filter p calls).

(** A run from the empty world. *)
Definition fresh : World := mkWorld [] [].

(** The message as section 4.1, step 4 of the specification lists it:
    the lines in order, the optional ones present exactly for a non-empty
    address list. *)
Definition optional_line (name : string) (addrs : list string) : list string :=
  match addrs with
  | [] => []
  | _ :: _ => [name +:+ ": " +:+ strings.Join addrs "," +:+ CRLF]
  end.

Definition spec_lines (email : Email) : list string :=
  [ "Subject: " +:+ Subject email +:+ CRLF;
    "To: " +:+ strings.Join (To email) "," +:+ CRLF ]
  ++ optional_line "Cc" (Cc email)
  ++ optional_line "Bcc" (Bcc email)
  ++ [ CRLF; Body email +:+ CRLF ].

Definition spec_message (email : Email) : string :=
  foldr String.append "" (spec_lines email).

(** ** Templates

    A body seen as the specification sees it: literal text interleaved
    with placeholders.  [flat] gives the bytes of such a body and
    [render] substitutes all placeholders at once. *)
Inductive segment : Type :=
  | Text (s : string)
  | Placeholder (key : string).

Definition template : Type := list segment.

Definition placeholder (key : string) : string := "{{" +:+ key +:+ "}}".

Definition flat_segment (sg : segment) : string :=
  match sg with
  | Text s => s
  | Placeholder key => placeholder key
  end.

Definition flat (t : template) : string :=
  foldr (fun sg rest => flat_segment sg +:+ rest) "" t.

Definition render_segment (parameters : gmap string Value) (sg : segment) : segment :=
  match sg with
  | Text s => Text s
  | Placeholder key =>
      match parameters !! key with
      | Some value => Text (Sprintf_v value)
      | None => Placeholder key
      end
  end.

Definition render (parameters : gmap string Value) (t : template) : template :=
  render_segment parameters <$> t.

Definition is_brace (ch : ascii) : bool :=
  Ascii.eqb ch "{" || Ascii.eqb ch "}".

Fixpoint brace_free (s : string) : bool :=
  match s with
  | EmptyString => true
  | String ch rest => negb (is_brace ch) && brace_free rest
  end.

Definition plain_segment (sg : segment) : bool :=
  match sg with
  | Text s => brace_free s
  | Placeholder key => brace_free key
  end.

(** Braces occur in the body only as the delimiters of placeholders. *)
Definition plain_template (t : template) : bool := forallb plain_segment t.

(** Neither a key nor the text of a value contains a brace. *)
Definition plain_entry (kv : string * Value) : bool :=
  brace_free kv.1 && brace_free (Sprintf_v kv.2).

(** [occurs old s]: some suffix of [s] starts with [old]. *)
Fixpoint occurs (old s : string) : bool :=
  String.prefix old s ||
  match s with
  | EmptyString => false
  | String _ rest => occurs old rest
  end.

(** ** Concrete inputs used in examples *)

(** A mapping in which the value of [a] is the placeholder of [b]. *)
Definition parameters_nested : gmap string Value :=
  <[ "a" := VString "{{b}}" ]> {[ "b" := VString "X" ]}.

Definition visit_a_b : list (string * Value) :=
  [("a", VString "{{b}}"); ("b", VString "X")].

Definition visit_b_a : list (string * Value) :=
  [("b", VString "X"); ("a", VString "{{b}}")].

Definition template_hello : template :=
  [Text "Hello "; Placeholder "name"; Text ", "; Placeholder "unused"].

Definition email_single : Email :=
  mkEmail ["a@x.com"] [] [] "S" "B".

Definition email_pair : Email :=
  mkEmail ["a@x.com"; "b@x.com"; "c@x.com"] [] [] "S" "B".

Definition client_example : SMTP :=
  mkSMTP "me@x.com" "secret" "smtp.x.com" "587"
         (PlainAuth "" "me@x.com" "secret" "smtp.x.com").

(** A peer that accepts everything. *)
Definition srv_ok : Server := fun _ _ => None.

(** A peer that refuses the TLS upgrade. *)
Definition srv_no_tls : Server :=
  fun _ c =>
    match c with
    | CallStartTLS _ => Some "454 TLS not available"
    | _ => None
    end.

(** A peer that rejects the recipient [b@x.com]. *)
Definition srv_reject_b : Server :=
  fun _ c =>
    match c with
    | CallRcpt to => if String.eqb to "b@x.com" then Some "550 no such user" else None
    | _ => None
    end.

(** A peer whose only failure is the close of the data-phase writer. *)
Definition srv_bad_close : Server :=
  fun _ c =>
    match c with
    | CallWriterClose => Some "554 transaction failed"
    | _ => None
    end.

(** ** Further vocabulary for runs *)

Definition isWrite (c : Call) : bool :=
  match c with CallWrite _ => true | _ => false end.

Definition isAuth (c : Call) : bool :=
  match c with CallAuth _ => true | _ => false end.


(** The error [GetClient] returns when the call at position [n] of the
    handshake is the one the peer rejects with [e]. *)
Definition handshake_error (n : nat) (e : string) : string :=
  match n with
  | 0%nat => ConnectionError e
  | 1%nat => TLSError e
  | 2%nat => AuthFailure e
  | _ => EnvelopeError e
  end.

(** The shape of a run of [SendMail] started after [h]: the value
    returned, the calls made and the lines printed, by the first call
    the peer rejects. *)
Inductive run_of (srv : Server) (c : SMTP) (email : Email) (h : list Call) :
    error -> list Call -> list string -> Prop :=
  | run_handshake (n : nat) (call : Call) (e : string) :
      handshake c !! n = Some call ->
      accepted srv h (take n (handshake c)) = true ->
      srv (h ++ take n (handshake c)) call = Some e ->
      run_of srv c email h
        (Some (handshake_error n e)) (take (S n) (handshake c)) []
  | run_recipient (pre : list string) (addr : string) (post : list string) (msg : string) :
      To email = pre ++ addr :: post ->
      accepted srv h (handshake c ++ (CallRcpt <$> pre)) = true ->
      srv (h ++ handshake c ++ (CallRcpt <$> pre)) (CallRcpt addr) = Some msg ->
      run_of srv c email h
        (Some (RecipientError msg))
        (handshake c ++ (CallRcpt <$> pre) ++ [CallRcpt addr; CallClose]) []
  | run_data (e : string) :
      accepted srv h (handshake c ++ (CallRcpt <$> To email)) = true ->
      srv (h ++ handshake c ++ (CallRcpt <$> To email)) CallData = Some e ->
      run_of srv c email h
        (Some (DataPhaseError e))
        (handshake c ++ (CallRcpt <$> To email) ++ [CallData; CallClose]) []
  | run_written (wr cl : error) :
      accepted srv h (handshake c ++ (CallRcpt <$> To email) ++ [CallData]) = true ->
      srv (entered_data c email h) (CallWrite (message email)) = wr ->
      srv (entered_data c email h ++ [CallWrite (message email)]) CallWriterClose = cl ->
      run_of srv c email h
        (SendError c <$> wr)
        (handshake c ++ (CallRcpt <$> To email) ++
         [CallData; CallWrite (message email); CallWriterClose; CallClose])
        (match cl with Some e => [CleanupWarning e] | None => [] end).

(** The calls of a run in which nothing is rejected, up to the write. *)
Definition calls_to_succeed (c : SMTP) (email : Email) : list Call :=
  handshake c ++ (CallRcpt <$> To email) ++ [CallData; CallWrite (message email)].

(** The error [SendMail] returns when the call at position [n] of
    [calls_to_succeed] is the first one the peer rejects, with [e]. *)
Definition error_at (c : SMTP) (email : Email) (n : nat) (e : string) : string :=
  if (n <? 4)%nat then handshake_error n e
  else if (n <? 4 + length (To email))%nat then RecipientError e
  else if (n =? 4 + length (To email))%nat then DataPhaseError e
  else SendError c e.

(** The zero value [SMTP{}]. *)
Definition zero_SMTP : SMTP := mkSMTP "" "" "" "" None.

(** A peer that refuses the data phase. *)
Definition srv_no_data : Server :=
  fun _ c =>
    match c with
    | CallData => Some "554 no data"
    | _ => None
    end.

(** A peer on which the write of the message fails. *)
Definition srv_write_fails : Server :=
  fun _ c =>
    match c with
    | CallWrite _ => Some "broken pipe"
    | _ => None
    end.

(** A peer that rejects the credentials. *)
Definition srv_no_auth : Server :=
  fun _ c =>
    match c with
    | CallAuth _ => Some "535 bad credentials"
    | _ => None
    end.

Definition email_copies : Email :=
  mkEmail ["a@x.com"] ["c@x.com"] ["d@x.com"] "S" "B".

(** * Properties *)

(** ** The models on concrete inputs *)

Example Itoa_values :
  strconv.Itoa 587 = "587" /\ strconv.Itoa 0 = "0" /\ strconv.Itoa (-45) = "-45".
Proof. repeat split. Qed.

Example Atoi_values :
  strconv.Atoi "587" = (587, None) /\
  strconv.Atoi "+12" = (12, None) /\
  strconv.Atoi "" = (0, Some strconv.ErrSyntax) /\
  strconv.Atoi "12a" = (0, Some strconv.ErrSyntax) /\
  strconv.Atoi "9223372036854775808" = (9223372036854775807, Some strconv.ErrRange).
Proof. repeat split. Qed.

Example Join_values :
  strings.Join ["a"; "b"; "c"] "," = "a,b,c" /\ strings.Join [] "," = "".
Proof. repeat split. Qed.

Example Replace_values :
  strings.Replace "a{{k}}b{{k}}" "{{k}}" "xy" (-1) = "axybxy" /\
  strings.Replace "aaaa" "aa" "b" 1 = "baa" /\
  strings.Replace "aaa" "aa" "b" (-1) = "ba".
Proof. repeat split. Qed.

Example SendMail_accepted_run :
  SendMail srv_ok client_example email_single fresh =
    (None,
     mkWorld (handshake client_example ++
              [CallRcpt "a@x.com"; CallData; CallWrite (message email_single);
               CallWriterClose; CallClose]) []).
Proof. reflexivity. Qed.

(** ** Decimal conversion: [Atoi] undoes [Itoa] *)
Section Decimal.
Import strconv.

Lemma digit_cases (d : Z) :
  0 <= d < 10 ->
  d = 0 \/ d = 1 \/ d = 2 \/ d = 3 \/ d = 4 \/
  d = 5 \/ d = 6 \/ d = 7 \/ d = 8 \/ d = 9.
Proof. lia. Qed.

Lemma digit_val_char (d : Z) :
  0 <= d < 10 -> digit_val (digit_char d) = Some d.
Proof.
  intros Hd. destruct (digit_cases d Hd) as [->|[->|[->|[->|[->|[->|[->|[->|[->| ->]]]]]]]]];
    reflexivity.
Qed.

Lemma digit_char_no_sign (d : Z) :
  0 <= d < 10 ->
  Ascii.eqb (digit_char d) "-" = false /\ Ascii.eqb (digit_char d) "+" = false.
Proof.
  intros Hd. destruct (digit_cases d Hd) as [->|[->|[->|[->|[->|[->|[->|[->|[->| ->]]]]]]]]];
    split; reflexivity.
Qed.

(** Reading back what [formatBits] wrote in front of [buf] leaves the
    reader at [buf] with the value [u]. *)
Lemma parseDigits_formatBits (rounds : nat) :
  forall (u : Z) (buf : string),
    0 <= u < 10 ^ Z.of_nat rounds ->
    u <= maxUint64 ->
    parseDigits (formatBits rounds u buf) 0 = parseDigits buf u.
Proof.
  induction rounds as [|r IH]; intros u buf Hu Hmax.
  - simpl in *. replace u with 0 by lia. reflexivity.
  - assert (Hmod : 0 <= u mod 10 < 10) by (apply Z.mod_pos_bound; lia).
    assert (Hsplit : u = u / 10 * 10 + u mod 10)
      by (rewrite (Z.mul_comm _ 10); apply Z.div_mod; lia).
    cbn [formatBits]. destruct (u <? 10) eqn:Hlt.
    + apply Z.ltb_lt in Hlt.
      cbn [parseDigits]. rewrite digit_val_char by done.
      rewrite Z.mod_small by lia. replace (0 * 10 + u) with u by lia.
      destruct (maxUint64 <? u) eqn:Hover; [apply Z.ltb_lt in Hover; lia | done].
    + apply Z.ltb_ge in Hlt.
      rewrite IH.
      * cbn [parseDigits]. rewrite digit_val_char by done.
        rewrite <- Hsplit.
        destruct (maxUint64 <? u) eqn:Hover; [apply Z.ltb_lt in Hover; lia | done].
      * rewrite Nat2Z.inj_succ, Z.pow_succ_r in Hu by lia.
        split; [apply Z.div_pos; lia | apply Z.div_lt_upper_bound; lia].
      * assert (0 <= u / 10) by (apply Z.div_pos; lia). lia.
Qed.

Lemma formatBits_head (rounds : nat) :
  forall (u : Z) (buf : string),
    0 <= u ->
    exists d rest, 0 <= d < 10 /\ formatBits (S rounds) u buf = String (digit_char d) rest.
Proof.
  induction rounds as [|r IH]; intros u buf Hu.
  - exists (u mod 10), buf. split; [apply Z.mod_pos_bound; lia|].
    cbn [formatBits]. by destruct (u <? 10).
  - cbn [formatBits]. destruct (u <? 10) eqn:Hlt.
    + exists (u mod 10), buf. split; [apply Z.mod_pos_bound; lia | done].
    + apply (IH (u / 10)). apply Z.div_pos; lia.
Qed.

Lemma Atoi_minus (tl : string) (un : Z) :
  ParseUint tl = (un, None) -> Atoi (String "-" tl) = signed true un.
Proof.
  intros H. unfold Atoi. change (Ascii.eqb "-" "-") with true.
  cbn [orb]. by rewrite H.
Qed.

Lemma Atoi_unsigned (c0 : ascii) (tl : string) (un : Z) :
  Ascii.eqb c0 "-" = false -> Ascii.eqb c0 "+" = false ->
  ParseUint (String c0 tl) = (un, None) -> Atoi (String c0 tl) = signed false un.
Proof.
  intros Hm Hp H. unfold Atoi. rewrite Hm, Hp. cbn [orb]. by rewrite H.
Qed.

Lemma Atoi_Itoa (i : Z) :
  minInt <= i <= maxInt -> Atoi (Itoa i) = (i, None).
Proof.
  unfold minInt, maxInt, intSize. intros Hi.
  assert (Hpow : 2 ^ 64 < 10 ^ Z.of_nat 20) by (vm_compute; reflexivity).
  unfold Itoa. destruct (i <? 0) eqn:Hneg.
  - apply Z.ltb_lt in Hneg.
    destruct (formatBits_head 19 (- i) "") as (d & rest & Hd & Hfmt); [lia|].
    assert (Hparse : parseDigits (formatBits 20 (- i) "") 0 = (- i, None)).
    { rewrite parseDigits_formatBits; [done | lia | unfold maxUint64; lia]. }
    rewrite (Atoi_minus _ (- i)).
    + unfold signed, intSize. cbn [negb andb].
      destruct (2 ^ (64 - 1) <? - i) eqn:Hcut; [apply Z.ltb_lt in Hcut; lia|].
      f_equal. lia.
    + rewrite Hfmt in *. exact Hparse.
  - apply Z.ltb_ge in Hneg.
    destruct (formatBits_head 19 i "") as (d & rest & Hd & Hfmt); [lia|].
    assert (Hparse : parseDigits (formatBits 20 i "") 0 = (i, None)).
    { rewrite parseDigits_formatBits; [done | lia | unfold maxUint64; lia]. }
    destruct (digit_char_no_sign d Hd) as [Hminus Hplus].
    rewrite Hfmt in *. rewrite (Atoi_unsigned _ _ i Hminus Hplus Hparse).
    unfold signed, intSize. cbn [negb andb].
    destruct (2 ^ (64 - 1) <=? i) eqn:Hcut; [apply Z.leb_le in Hcut; lia | done].
Qed.

End Decimal.

(** ** Construction and accessors *)

(** C1 (as amended).  [New] fails, with the [AuthError], exactly when
    the constructor of the token gives nil, and a client it returns
    carries the token.  [smtp.PlainAuth] gives a token for any
    arguments, an empty password included, so [New] always returns a
    client. *)
Theorem New_always_succeeds :
  (forall plainAuth sender pass hostname portNumber,
     NewWith plainAuth sender pass hostname portNumber = Err AuthError <->
     plainAuth "" sender pass hostname = None) /\
  (forall plainAuth sender pass hostname portNumber c,
     NewWith plainAuth sender pass hostname portNumber = Ok c ->
     auth c = plainAuth "" sender pass hostname /\ auth c <> None) /\
  (forall sender pass hostname portNumber,
     exists c : SMTP,
       New sender pass hostname portNumber = Ok c /\
       auth c = PlainAuth "" sender pass hostname).
Proof.
  split; [|split].
  - intros plainAuth sender pass hostname portNumber. unfold NewWith.
    by destruct (plainAuth "" sender pass hostname).
  - intros plainAuth sender pass hostname portNumber c. unfold NewWith.
    destruct (plainAuth "" sender pass hostname) eqn:Htoken; [|done].
    by intros [= <-].
  - intros sender pass hostname portNumber. by eexists.
Qed.

Lemma New_always_succeeds_witness :
  New "me@x.com" "" "smtp.x.com" 587 = Ok (mkSMTP "me@x.com" "" "smtp.x.com" "587"
                                             (PlainAuth "" "me@x.com" "" "smtp.x.com")) /\
  auth (mkSMTP "me@x.com" "" "smtp.x.com" "587" (PlainAuth "" "me@x.com" "" "smtp.x.com"))
    = PlainAuth "" "me@x.com" "" "smtp.x.com" /\
  auth (mkSMTP "me@x.com" "" "smtp.x.com" "587" (PlainAuth "" "me@x.com" "" "smtp.x.com"))
    <> None.
Proof.
  split; [reflexivity|].
  apply (proj1 (proj2 New_always_succeeds) PlainAuth "me@x.com" "" "smtp.x.com" 587).
  reflexivity.
Defined.

(** C1, refuted as stated: with an empty password [New] returns a
    client, not the [AuthError]. *)
Lemma New_empty_password_succeeds :
  New "me@x.com" "" "smtp.x.com" 587 =
    Ok (mkSMTP "me@x.com" "" "smtp.x.com" "587" (PlainAuth "" "me@x.com" "" "smtp.x.com")) /\
  New "me@x.com" "" "smtp.x.com" 587 <> Err AuthError.
Proof. split; [reflexivity | discriminate]. Qed.

(** C9.  With a non-empty password and a port between 1 and 65535, [New]
    succeeds and the four accessors give back the arguments, the port
    after its passage through [Itoa] and [Atoi]. *)
Theorem New_accessors_roundtrip (sender pass hostname : string) (portNumber : Z) :
  pass <> "" ->
  1 <= portNumber <= 65535 ->
  exists c : SMTP,
    New sender pass hostname portNumber = Ok c /\
    GetSenderAddress c = sender /\
    GetPassword c = pass /\
    GetHost c = hostname /\
    GetPort c = portNumber.
Proof.
  intros _ Hport. eexists. split; [reflexivity|].
  repeat split. unfold GetPort. cbn [port].
  rewrite Atoi_Itoa; [done|].
  unfold strconv.minInt, strconv.maxInt, strconv.intSize. lia.
Qed.

Lemma New_accessors_roundtrip_witness :
  "secret" <> "" /\
  1 <= 587 <= 65535 /\
  exists c : SMTP,
    New "me@x.com" "secret" "smtp.x.com" 587 = Ok c /\
    GetSenderAddress c = "me@x.com" /\
    GetPassword c = "secret" /\
    GetHost c = "smtp.x.com" /\
    GetPort c = 587.
Proof.
  split; [discriminate|]. split; [lia|].
  apply (New_accessors_roundtrip "me@x.com" "secret" "smtp.x.com" 587);
    [discriminate | lia].
Defined.

(** ** Strings *)

Lemma append_nil_l (s : string) : "" +:+ s = s.
Proof. reflexivity. Qed.

Lemma append_cons (a : ascii) (s t : string) : String a s +:+ t = String a (s +:+ t).
Proof. reflexivity. Qed.

Lemma append_nil_r (s : string) : s +:+ "" = s.
Proof. induction s as [|a s IH]; [done|]. by rewrite append_cons, IH. Qed.

Lemma append_assoc (s t u : string) : (s +:+ t) +:+ u = s +:+ (t +:+ u).
Proof. induction s as [|a s IH]; [done|]. by rewrite !append_cons, IH. Qed.

(** ** The composed message *)

Lemma optional_line_flat (name : string) (addrs : list string) :
  foldr String.append "" (optional_line name addrs) =
  if negb (length addrs =? 0)%nat
  then name +:+ ": " +:+ strings.Join addrs "," +:+ CRLF
  else "".
Proof.
  destruct addrs as [|a rest]; [done|].
  cbn [optional_line foldr length Nat.eqb negb]. by rewrite append_nil_r.
Qed.

Lemma spec_message_unfold (email : Email) :
  spec_message email =
  "Subject: " +:+ Subject email +:+ CRLF +:+
  "To: " +:+ strings.Join (To email) "," +:+ CRLF +:+
  foldr String.append "" (optional_line "Cc" (Cc email)) +:+
  foldr String.append "" (optional_line "Bcc" (Bcc email)) +:+
  CRLF +:+ Body email +:+ CRLF.
Proof.
  unfold spec_message, spec_lines.
  rewrite !foldr_app. cbn [foldr app].
  rewrite append_nil_r, !append_assoc.
  do 6 f_equal.
  generalize (CRLF +:+ Body email +:+ CRLF). intros tail.
  destruct (Cc email) as [|c cs], (Bcc email) as [|b bs];
    cbn [optional_line foldr app]; rewrite ?append_nil_r, ?append_nil_l; done.
Qed.

(** The header block of the code is the one the specification lists. *)
Lemma message_spec (email : Email) : message email = spec_message email.
Proof.
  rewrite spec_message_unfold. unfold message.
  rewrite !optional_line_flat. reflexivity.
Qed.

(** ** Runs of [GetClient] and [SendMail] *)
Section Runs.

Variable srv : Server.

Lemma accepted_app (h l1 l2 : list Call) :
  accepted srv h (l1 ++ l2) = accepted srv h l1 && accepted srv (h ++ l1) l2.
Proof.
  revert h. induction l1 as [|c l1 IH]; intros h; cbn [accepted app].
  - by rewrite app_nil_r.
  - destruct (srv h c); [done|]. rewrite IH. by rewrite <- app_assoc.
Qed.

Lemma accepted_cons (h : list Call) (c : Call) (rest : list Call) :
  accepted srv h (c :: rest) = true ->
  srv h c = None /\ accepted srv (h ++ [c]) rest = true.
Proof. cbn [accepted]. by destruct (srv h c). Qed.

Lemma call_run (c : Call) (h : list Call) (out : list string) :
  call srv c (mkWorld h out) = (srv h c, mkWorld (h ++ [c]) out).
Proof. reflexivity. Qed.

(** A handshake the peer accepts gives a client and leaves exactly its
    four calls on the wire. *)
Lemma GetClient_accepted (c : SMTP) (h : list Call) (out : list string) :
  accepted srv h (handshake c) = true ->
  GetClient srv c (mkWorld h out) =
  (Ok (mkClient (host c +:+ ":" +:+ port c)), mkWorld (h ++ handshake c) out).
Proof.
  unfold handshake. intros H.
  apply accepted_cons in H as [Hdial H].
  apply accepted_cons in H as [Htls H].
  apply accepted_cons in H as [Hauth H].
  apply accepted_cons in H as [Hmail _].
  unfold GetClient, Dial, StartTLS, DoAuth, Mail, bind, ret.
  rewrite !call_run, Hdial. rewrite !call_run, Htls.
  rewrite !call_run, Hauth. rewrite !call_run, Hmail.
  by rewrite <- !app_assoc.
Qed.

(** The loop declares the recipients in the order of the list, and runs
    to its end when the peer accepts them all. *)
Lemma rcptLoop_accepted (client : Client) (to : list string) :
  forall (h : list Call) (out : list string),
    accepted srv h (CallRcpt <$> to) = true ->
    rcptLoop srv client to (mkWorld h out) =
    (None, mkWorld (h ++ (CallRcpt <$> to)) out).
Proof.
  induction to as [|addr rest IH]; intros h out H.
  - cbn. by rewrite app_nil_r.
  - rewrite fmap_cons in H. apply accepted_cons in H as [Hrcpt H].
    cbn [rcptLoop]. unfold bind, Rcpt. rewrite call_run, Hrcpt.
    rewrite (IH _ _ H). by rewrite <- app_assoc.
Qed.

(** It stops at the first recipient the peer rejects. *)
Lemma rcptLoop_rejected (client : Client) (pre : list string) :
  forall (addr : string) (post : list string) (msg : string)
         (h : list Call) (out : list string),
    accepted srv h (CallRcpt <$> pre) = true ->
    srv (h ++ (CallRcpt <$> pre)) (CallRcpt addr) = Some msg ->
    rcptLoop srv client (pre ++ addr :: post) (mkWorld h out) =
    (Some (RecipientError msg),
     mkWorld (h ++ (CallRcpt <$> pre) ++ [CallRcpt addr]) out).
Proof.
  induction pre as [|a pre IH]; intros addr post msg h out Hacc Hrej.
  - cbn [fmap list_fmap app] in *. rewrite app_nil_r in Hrej.
    cbn [rcptLoop]. unfold bind, Rcpt. by rewrite call_run, Hrej.
  - rewrite fmap_cons in Hacc, Hrej. apply accepted_cons in Hacc as [Hrcpt Hacc].
    cbn [app rcptLoop]. unfold bind, Rcpt. rewrite call_run, Hrcpt.
    rewrite (IH addr post msg (h ++ [CallRcpt a]) out Hacc).
    + rewrite fmap_cons. by rewrite <- !app_assoc.
    + by rewrite <- app_assoc.
Qed.

(** The whole data phase, once the peer has let the run enter it: the
    composed message is written, the writer is closed, then the
    connection; the value returned is decided by the write alone. *)
Lemma SendMail_data_phase (c : SMTP) (email : Email) (h : list Call) (out : list string) :
  accepted srv h (handshake c ++ (CallRcpt <$> To email) ++ [CallData]) = true ->
  let h1 := h ++ handshake c ++ (CallRcpt <$> To email) ++ [CallData] in
  SendMail srv c email (mkWorld h out) =
  (match srv h1 (CallWrite (message email)) with
   | Some e => Some (SendError c e)
   | None => None
   end,
   mkWorld (h1 ++ [CallWrite (message email); CallWriterClose; CallClose])
           (out ++ match srv (h1 ++ [CallWrite (message email)]) CallWriterClose with
                   | Some e => [CleanupWarning e]
                   | None => []
                   end)).
Proof.
  intros H h1. rewrite !accepted_app in H.
  apply andb_true_iff in H as [Hhs H]. apply andb_true_iff in H as [Hrc Hdata].
  apply accepted_cons in Hdata as [Hdata _].
  unfold SendMail, defer, bind. rewrite (GetClient_accepted _ _ _ Hhs).
  rewrite (rcptLoop_accepted _ _ _ _ Hrc).
  unfold Data, bind. rewrite call_run, Hdata.
  unfold ret, Write. rewrite call_run.
  subst h1. rewrite !(assoc_L (++) h), !(assoc_L (++) (h ++ handshake c)).
  set (h1 := ((h ++ handshake c) ++ (CallRcpt <$> To email)) ++ [CallData]).
  unfold closeWriter, WriterClose, Close, bind.
  destruct (srv h1 (CallWrite (message email))) as [e|];
    rewrite call_run;
    destruct (srv (h1 ++ [CallWrite (message email)]) CallWriterClose) as [e'|];
    unfold Printf, ret; cbn [wire stdout]; rewrite ?call_run, ?app_nil_r;
    rewrite <- ?app_assoc; reflexivity.
Qed.

(** A rejected recipient ends the call: the connection is closed and
    nothing else is sent. *)
Lemma SendMail_rcpt_rejected (c : SMTP) (email : Email)
    (pre : list string) (addr : string) (post : list string) (msg : string)
    (h : list Call) (out : list string) :
  To email = pre ++ addr :: post ->
  accepted srv h (handshake c ++ (CallRcpt <$> pre)) = true ->
  srv (h ++ handshake c ++ (CallRcpt <$> pre)) (CallRcpt addr) = Some msg ->
  SendMail srv c email (mkWorld h out) =
  (Some (RecipientError msg),
   mkWorld (h ++ handshake c ++ (CallRcpt <$> pre) ++ [CallRcpt addr; CallClose]) out).
Proof.
  intros HTo H Hrej. rewrite accepted_app in H.
  apply andb_true_iff in H as [Hhs Hrc].
  unfold SendMail, defer, bind. rewrite (GetClient_accepted _ _ _ Hhs), HTo.
  rewrite (rcptLoop_rejected _ pre addr post msg _ _ Hrc)
    by (by rewrite <- app_assoc).
  unfold ret, Close, bind. rewrite call_run.
  by rewrite <- !app_assoc.
Qed.

(** The peer refuses the data phase: nothing is written. *)
Lemma SendMail_data_refused (c : SMTP) (email : Email) (e : string)
    (h : list Call) (out : list string) :
  accepted srv h (handshake c ++ (CallRcpt <$> To email)) = true ->
  srv (h ++ handshake c ++ (CallRcpt <$> To email)) CallData = Some e ->
  SendMail srv c email (mkWorld h out) =
  (Some (DataPhaseError e),
   mkWorld (h ++ handshake c ++ (CallRcpt <$> To email) ++ [CallData; CallClose]) out).
Proof.
  intros H Hdata. rewrite accepted_app in H.
  apply andb_true_iff in H as [Hhs Hrc].
  unfold SendMail, defer, bind. rewrite (GetClient_accepted _ _ _ Hhs).
  rewrite (rcptLoop_accepted _ _ _ _ Hrc).
  unfold Data, bind. rewrite call_run, <- app_assoc, Hdata.
  unfold ret, Close, bind. rewrite call_run.
  by rewrite <- !app_assoc.
Qed.

(** The recipients are either all accepted or there is a first one the
    peer rejects. *)
Lemma rcpt_outcome (to : list string) :
  forall h : list Call,
    accepted srv h (CallRcpt <$> to) = true \/
    exists pre addr post msg,
      to = pre ++ addr :: post /\
      accepted srv h (CallRcpt <$> pre) = true /\
      srv (h ++ (CallRcpt <$> pre)) (CallRcpt addr) = Some msg.
Proof.
  induction to as [|a to IH]; intros h; [by left|].
  destruct (srv h (CallRcpt a)) as [msg|] eqn:Ha.
  - right. exists [], a, to, msg. cbn. by rewrite app_nil_r.
  - destruct (IH (h ++ [CallRcpt a])) as [Hall | (pre & addr & post & msg & -> & Hacc & Hrej)].
    + left. rewrite fmap_cons. cbn [accepted]. by rewrite Ha.
    + right. exists (a :: pre), addr, post, msg. split; [done|].
      rewrite fmap_cons. cbn [accepted]. rewrite Ha. split; [done|].
      by rewrite <- app_assoc in Hrej.
Qed.

Lemma count_app (p : Call -> bool) (l1 l2 : list Call) :
  count p (l1 ++ l2) = (count p l1 + count p l2)%nat.
Proof. unfold count. by rewrite List.filter_app, length_app. Qed.

Lemma count_rcpts (p : Call -> bool) (to : list string) :
  (forall a, p (CallRcpt a) = false) -> count p (CallRcpt <$> to) = 0%nat.
Proof.
  intros Hp. unfold count. induction to as [|a to IH]; [done|].
  rewrite fmap_cons. cbn [List.filter]. by rewrite Hp.
Qed.

Lemma count_handshake (p : Call -> bool) (c : SMTP) :
  (forall a, p (CallDial a) = false) -> (forall a, p (CallStartTLS a) = false) ->
  (forall a, p (CallAuth a) = false) -> (forall a, p (CallMail a) = false) ->
  count p (handshake c) = 0%nat.
Proof.
  intros H1 H2 H3 H4. unfold count, handshake. cbn [List.filter].
  by rewrite H1, H2, H3, H4.
Qed.

(** Once the connection has been opened, every way out of [SendMail]
    closes it, once, as the last call. *)
Lemma SendMail_closes_once_connected (c : SMTP) (email : Email) (w0 : World) :
  accepted srv (wire w0) (handshake c) = true ->
  exists calls,
    wire (SendMail srv c email w0).2 = wire w0 ++ handshake c ++ calls ++ [CallClose] /\
    count isClose (handshake c ++ calls) = 0%nat.
Proof.
  destruct w0 as [h out]. cbn [wire]. intros Hhs.
  assert (Hc0 : count isClose (handshake c) = 0%nat) by (by apply count_handshake).
  assert (Hr0 : forall to, count isClose (CallRcpt <$> to) = 0%nat)
    by (intros to; by apply count_rcpts).
  destruct (rcpt_outcome (To email) (h ++ handshake c))
    as [Hall | (pre & addr & post & msg & HTo & Hacc & Hrej)].
  - destruct (srv (h ++ handshake c ++ (CallRcpt <$> To email)) CallData) as [e|] eqn:Hdata.
    + rewrite (SendMail_data_refused c email e); [| by rewrite accepted_app, Hhs | done].
      exists ((CallRcpt <$> To email) ++ [CallData]). cbn [snd wire]. split.
      * by rewrite <- !app_assoc.
      * by rewrite !count_app, Hc0, Hr0.
    + rewrite SendMail_data_phase.
      2:{ rewrite !accepted_app, Hhs, Hall. cbn [andb accepted].
          by rewrite <- app_assoc, Hdata. }
      exists ((CallRcpt <$> To email) ++
              [CallData; CallWrite (message email); CallWriterClose]).
      cbn [snd wire]. split.
      * by rewrite <- !app_assoc.
      * by rewrite !count_app, Hc0, Hr0.
  - rewrite (SendMail_rcpt_rejected c email pre addr post msg); [| done | | ].
    + exists ((CallRcpt <$> pre) ++ [CallRcpt addr]). cbn [snd wire]. split.
      * by rewrite <- !app_assoc.
      * by rewrite !count_app, Hc0, Hr0.
    + by rewrite accepted_app, Hhs.
    + by rewrite app_assoc.
Qed.

(** [GetClient] itself never closes what it has dialled, whatever the
    outcome of its four steps. *)
Lemma GetClient_never_closes (c : SMTP) (w0 : World) :
  exists calls,
    wire (GetClient srv c w0).2 = wire w0 ++ calls /\
    count isClose calls = 0%nat.
Proof.
  destruct w0 as [h out]. unfold GetClient, Dial, StartTLS, DoAuth, Mail, bind, ret.
  rewrite call_run. destruct (srv h _); [by eexists [_]|].
  rewrite call_run. destruct (srv _ _); [by eexists [_; _]; rewrite <- !app_assoc|].
  rewrite call_run. destruct (srv _ _); [by eexists [_; _; _]; rewrite <- !app_assoc|].
  rewrite call_run. destruct (srv _ _); by eexists [_; _; _; _]; rewrite <- !app_assoc.
Qed.

(** A failure of [GetClient] is returned as it is and ends [SendMail]
    on the spot. *)
Lemma SendMail_GetClient_failed (c : SMTP) (email : Email) (w0 w1 : World) (e : string) :
  GetClient srv c w0 = (Err e, w1) ->
  SendMail srv c email w0 = (Some e, w1).
Proof. intros H. unfold SendMail, bind. by rewrite H. Qed.

(** So a connection whose handshake fails after the dial stays open. *)
Lemma SendMail_failed_handshake_no_close (c : SMTP) (email : Email) (w0 w1 : World)
    (e : string) :
  GetClient srv c w0 = (Err e, w1) ->
  exists calls,
    SendMail srv c email w0 = (Some e, mkWorld (wire w0 ++ calls) (stdout w0)) /\
    count isClose calls = 0%nat.
Proof.
  intros H. rewrite (SendMail_GetClient_failed _ _ _ _ _ H).
  destruct (GetClient_never_closes c w0) as (calls & Hwire & Hcount).
  exists calls. split; [|done]. f_equal.
  rewrite H in Hwire. cbn [snd] in Hwire.
  assert (Hout : stdout w1 = stdout w0).
  { clear Hwire Hcount. revert H. destruct w0 as [h out].
    unfold GetClient, Dial, StartTLS, DoAuth, Mail, bind, ret.
    rewrite call_run. destruct (srv h _); [by intros [= _ <-]|].
    rewrite call_run. destruct (srv _ _); [by intros [= _ <-]|].
    rewrite call_run. destruct (srv _ _); [by intros [= _ <-]|].
    rewrite call_run. destruct (srv _ _); [by intros [= _ <-] | done]. }
  destruct w1 as [h1 out1]. cbn [wire stdout] in *. by subst.
Qed.

(** A handshake either goes through or ends in one of the four
    [client error] results. *)
Lemma GetClient_outcome (c : SMTP) (w0 : World) :
  accepted srv (wire w0) (handshake c) = true \/
  exists e w1, GetClient srv c w0 = (Err ("client error, " +:+ e), w1).
Proof.
  destruct w0 as [h out]. unfold handshake. cbn [wire accepted].
  unfold GetClient, Dial, StartTLS, DoAuth, Mail, bind, ret. rewrite call_run.
  destruct (srv h _); [right; by eexists _, _|].
  rewrite call_run. destruct (srv _ _); [right; by eexists _, _|].
  rewrite call_run. destruct (srv _ _); [right; by eexists _, _|].
  rewrite call_run. destruct (srv _ _); [right; by eexists _, _|].
  by left.
Qed.

Lemma SendMail_exit_path (c : SMTP) (email : Email) (w0 : World) :
  exit_path srv c email w0 (SendMail srv c email w0).
Proof.
  destruct (GetClient_outcome c w0) as [Hhs | (e & w1 & Hfail)].
  2:{ rewrite (SendMail_GetClient_failed _ _ _ _ _ Hfail). by constructor. }
  destruct w0 as [h out]. cbn [wire] in Hhs.
  destruct (rcpt_outcome (To email) (h ++ handshake c))
    as [Hall | (pre & addr & post & msg & HTo & Hacc & Hrej)].
  - destruct (srv (h ++ handshake c ++ (CallRcpt <$> To email)) CallData) as [e|] eqn:Hdata.
    + rewrite (SendMail_data_refused c email e); [| by rewrite accepted_app, Hhs | done].
      apply (exit_data srv c email (mkWorld h out)).
    + rewrite SendMail_data_phase.
      2:{ rewrite !accepted_app, Hhs, Hall. cbn [andb accepted].
          by rewrite <- app_assoc, Hdata. }
      apply (exit_written srv c email (mkWorld h out)).
      destruct (srv _ (CallWrite _)); [right; by eexists | by left].
  - rewrite (SendMail_rcpt_rejected c email pre addr post msg);
      [| done | by rewrite accepted_app, Hhs | by rewrite app_assoc].
    by apply (exit_recipient srv c email (mkWorld h out) pre addr post msg).
Qed.

End Runs.

(** Two peers that differ only in how they answer the close of the
    writer accept the same calls, as long as that close is not among
    them. *)
Lemma accepted_agree (srv srv' : Server) :
  (forall h call, call <> CallWriterClose -> srv' h call = srv h call) ->
  forall (calls h : list Call),
    Forall (fun call => call <> CallWriterClose) calls ->
    accepted srv' h calls = accepted srv h calls.
Proof.
  intros Hagree calls. induction calls as [|call calls IH]; intros h Hcalls; [done|].
  apply Forall_cons in Hcalls as [Hcall Hcalls].
  cbn [accepted]. rewrite Hagree by done. destruct (srv h call); [done|]. by apply IH.
Qed.

Lemma before_data_no_writer_close (c : SMTP) (email : Email) :
  Forall (fun call => call <> CallWriterClose)
         (handshake c ++ (CallRcpt <$> To email) ++ [CallData]).
Proof.
  rewrite !Forall_app. split; [|split].
  - unfold handshake. by repeat constructor.
  - apply Forall_fmap, Forall_true. by intros to.
  - by repeat constructor.
Qed.

(** ** Closing the connection *)

(** C2, at the failing input.  The peer accepts the dial and refuses the
    TLS upgrade: [SendMail] returns the [TLSError] of [GetClient], and
    the connection that was dialled is never closed. *)
Theorem SendMail_tls_refused_leaks :
  srv_no_tls [] (CallDial "smtp.x.com:587") = None /\
  SendMail srv_no_tls client_example email_single fresh =
    (Some (TLSError "454 TLS not available"),
     mkWorld [CallDial "smtp.x.com:587";
              CallStartTLS (mkTlsConfig true "smtp.x.com")] []) /\
  count isClose (wire (SendMail srv_no_tls client_example email_single fresh).2) = 0%nat.
Proof. repeat split. Qed.

(** ** The message of the data phase *)

(** C4.  For [To = [a@x.com]], no [Cc], no [Bcc], subject [S] and body
    [B], the message is [Subject: S\r\nTo: a@x.com\r\n\r\nB\r\n], and it
    is what [SendMail] writes in the data phase. *)
Theorem message_single_recipient :
  message email_single =
    "Subject: S" +:+ CRLF +:+ "To: a@x.com" +:+ CRLF +:+ CRLF +:+ "B" +:+ CRLF /\
  forall (srv : Server) (c : SMTP) (w0 : World),
    accepted srv (wire w0) (handshake c ++ [CallRcpt "a@x.com"; CallData]) = true ->
    wire (SendMail srv c email_single w0).2 =
      wire w0 ++ handshake c ++
      [ CallRcpt "a@x.com"; CallData;
        CallWrite ("Subject: S" +:+ CRLF +:+ "To: a@x.com" +:+ CRLF +:+ CRLF +:+ "B" +:+ CRLF);
        CallWriterClose; CallClose ].
Proof.
  split; [reflexivity|]. intros srv c [h out] H. cbn [wire] in *.
  rewrite SendMail_data_phase by exact H.
  cbn [snd wire]. by rewrite <- !app_assoc.
Qed.

Lemma message_single_recipient_witness :
  accepted srv_ok (wire fresh)
    (handshake client_example ++ [CallRcpt "a@x.com"; CallData]) = true /\
  wire (SendMail srv_ok client_example email_single fresh).2 =
    wire fresh ++ handshake client_example ++
    [ CallRcpt "a@x.com"; CallData;
      CallWrite ("Subject: S" +:+ CRLF +:+ "To: a@x.com" +:+ CRLF +:+ CRLF +:+ "B" +:+ CRLF);
      CallWriterClose; CallClose ].
Proof.
  split; [reflexivity|].
  apply (proj2 message_single_recipient srv_ok client_example fresh). reflexivity.
Defined.

(** C5.  For every email the message is, in this order, the [Subject]
    line, the [To] line, the [Cc] line exactly when [Cc] is not empty,
    the [Bcc] line exactly when [Bcc] is not empty, an empty line and the
    body followed by [\r\n]: it is the message the specification lists,
    spelled out below for the four combinations of empty and non-empty
    [Cc] and [Bcc].  With [Cc = [c@x.com; d@x.com]] the line
    [Cc: c@x.com,d@x.com\r\n] comes right after the [To] line, before
    the [Bcc] line, if any, and the empty line. *)
Theorem message_header_order :
  (forall email : Email, message email = spec_message email) /\
  (forall to subject body,
     message (mkEmail to [] [] subject body) =
       "Subject: " +:+ subject +:+ CRLF +:+
       "To: " +:+ strings.Join to "," +:+ CRLF +:+
       CRLF +:+ body +:+ CRLF) /\
  (forall to c cs subject body,
     message (mkEmail to (c :: cs) [] subject body) =
       "Subject: " +:+ subject +:+ CRLF +:+
       "To: " +:+ strings.Join to "," +:+ CRLF +:+
       "Cc: " +:+ strings.Join (c :: cs) "," +:+ CRLF +:+
       CRLF +:+ body +:+ CRLF) /\
  (forall to b bs subject body,
     message (mkEmail to [] (b :: bs) subject body) =
       "Subject: " +:+ subject +:+ CRLF +:+
       "To: " +:+ strings.Join to "," +:+ CRLF +:+
       "Bcc: " +:+ strings.Join (b :: bs) "," +:+ CRLF +:+
       CRLF +:+ body +:+ CRLF) /\
  (forall to c cs b bs subject body,
     message (mkEmail to (c :: cs) (b :: bs) subject body) =
       "Subject: " +:+ subject +:+ CRLF +:+
       "To: " +:+ strings.Join to "," +:+ CRLF +:+
       "Cc: " +:+ strings.Join (c :: cs) "," +:+ CRLF +:+
       "Bcc: " +:+ strings.Join (b :: bs) "," +:+ CRLF +:+
       CRLF +:+ body +:+ CRLF) /\
  (forall to bcc subject body,
     message (mkEmail to ["c@x.com"; "d@x.com"] bcc subject body) =
       "Subject: " +:+ subject +:+ CRLF +:+
       "To: " +:+ strings.Join to "," +:+ CRLF +:+
       "Cc: c@x.com,d@x.com" +:+ CRLF +:+
       foldr String.append "" (optional_line "Bcc" bcc ++ [CRLF; body +:+ CRLF])).
Proof.
  split; [exact message_spec|].
  split; [intros; unfold message; cbn [Cc Bcc length Nat.eqb negb];
          by rewrite ?append_assoc|].
  split; [intros; unfold message; cbn [Cc Bcc length Nat.eqb negb];
          by rewrite ?append_assoc|].
  split; [intros; unfold message; cbn [Cc Bcc length Nat.eqb negb];
          by rewrite ?append_assoc|].
  split; [intros; unfold message; cbn [Cc Bcc length Nat.eqb negb];
          by rewrite ?append_assoc|].
  intros to bcc subject body.
  rewrite message_spec, spec_message_unfold. cbn [To Cc Bcc Subject Body].
  rewrite foldr_app. cbn [optional_line foldr strings.Join].
  rewrite !append_nil_r, !append_assoc. do 6 f_equal.
  destruct bcc as [|b bs]; cbn [optional_line foldr]; by rewrite ?append_nil_r.
Qed.

(** ** Recipients *)

(** C6.  The recipients are declared in the order of [To].  When the
    peer rejects one of them, [SendMail] returns the [RecipientError] at
    once: the recipients after it are not declared, the data phase is
    not entered, and the connection is closed.  Conversely a call that
    returns a [RecipientError] has made no [Data] call, so it cannot
    have met a [DataPhaseError]. *)
Theorem SendMail_recipient_rejected :
  (forall (srv : Server) (c : SMTP) (email : Email)
          (pre : list string) (addr : string) (post : list string) (msg : string)
          (w0 : World),
     To email = pre ++ addr :: post ->
     accepted srv (wire w0) (handshake c ++ (CallRcpt <$> pre)) = true ->
     srv (wire w0 ++ handshake c ++ (CallRcpt <$> pre)) (CallRcpt addr) = Some msg ->
     exists calls,
       SendMail srv c email w0 =
         (Some (RecipientError msg), mkWorld (wire w0 ++ calls) (stdout w0)) /\
       calls = handshake c ++ (CallRcpt <$> pre) ++ [CallRcpt addr; CallClose] /\
       List.filter isRcpt calls = CallRcpt <$> (pre ++ [addr]) /\
       count isData calls = 0%nat) /\
  (forall (srv : Server) (c : SMTP) (email : Email) (w0 w1 : World) (msg : string),
     SendMail srv c email w0 = (Some (RecipientError msg), w1) ->
     exists calls, wire w1 = wire w0 ++ calls /\ count isData calls = 0%nat).
Proof.
  split.
  - intros srv c email pre addr post msg [h out]. cbn [wire stdout]. intros HTo Hacc Hrej.
    eexists. split; [by apply (SendMail_rcpt_rejected srv c email pre addr post msg)|].
    split; [done|]. split.
    + cbn [handshake app List.filter isRcpt]. rewrite List.filter_app, fmap_app.
      f_equal. clear. induction pre as [|a pre IH]; [done|].
      rewrite fmap_cons. cbn [List.filter isRcpt]. by rewrite IH.
    + rewrite !count_app, count_handshake, count_rcpts by done. reflexivity.
  - intros srv c email w0 w1 msg Hrun.
    pose proof (SendMail_exit_path srv c email w0) as Hexit. rewrite Hrun in Hexit.
    inversion Hexit as [e w1' Hfail Heq | pre addr post msg' HTo Heq | e Heq
                        | r out [Hr | [e Hr]] Heq]; try discriminate.
    exists (handshake c ++ (CallRcpt <$> pre) ++ [CallRcpt addr; CallClose]).
    split; [reflexivity|].
    rewrite !count_app, count_handshake, count_rcpts by done. reflexivity.
Qed.

Lemma SendMail_recipient_rejected_witness :
  To email_pair = ["a@x.com"] ++ "b@x.com" :: ["c@x.com"] /\
  accepted srv_reject_b (wire fresh)
    (handshake client_example ++ (CallRcpt <$> ["a@x.com"])) = true /\
  srv_reject_b (wire fresh ++ handshake client_example ++ (CallRcpt <$> ["a@x.com"]))
    (CallRcpt "b@x.com") = Some "550 no such user" /\
  (exists calls,
     SendMail srv_reject_b client_example email_pair fresh =
       (Some (RecipientError "550 no such user"),
        mkWorld (wire fresh ++ calls) (stdout fresh)) /\
     calls = handshake client_example ++ (CallRcpt <$> ["a@x.com"]) ++
             [CallRcpt "b@x.com"; CallClose] /\
     List.filter isRcpt calls = CallRcpt <$> (["a@x.com"] ++ ["b@x.com"]) /\
     count isData calls = 0%nat) /\
  (exists calls,
     wire (SendMail srv_reject_b client_example email_pair fresh).2 = wire fresh ++ calls /\
     count isData calls = 0%nat).
Proof.
  split; [reflexivity|]. split; [reflexivity|]. split; [reflexivity|]. split.
  - apply (proj1 SendMail_recipient_rejected srv_reject_b client_example email_pair
             ["a@x.com"] "b@x.com" ["c@x.com"] "550 no such user" fresh);
      reflexivity.
  - apply (proj2 SendMail_recipient_rejected srv_reject_b client_example email_pair
             fresh _ "550 no such user").
    reflexivity.
Defined.

(** ** The data phase *)

(** C7.  In a call that reaches the data phase, the value returned is
    decided by the write alone: success when the write succeeded, the
    [SendError] of the write when it failed.  A failure of the writer's
    close leaves that value as it is and only prints the
    [CleanupWarning]: against a peer that differs in nothing but its
    answer to that close, the same value is returned. *)
Theorem SendMail_writer_close_failure :
  (forall (srv : Server) (c : SMTP) (email : Email) (w0 : World) (closeErr : string),
     accepted srv (wire w0) (handshake c ++ (CallRcpt <$> To email) ++ [CallData]) = true ->
     srv (entered_data c email (wire w0) ++ [CallWrite (message email)]) CallWriterClose
       = Some closeErr ->
     exists w1,
       SendMail srv c email w0 =
         (match srv (entered_data c email (wire w0)) (CallWrite (message email)) with
          | Some writeErr => Some (SendError c writeErr)
          | None => None
          end, w1) /\
       stdout w1 = stdout w0 ++ [CleanupWarning closeErr] /\
       wire w1 = entered_data c email (wire w0) ++
                 [CallWrite (message email); CallWriterClose; CallClose]) /\
  (forall (srv srv' : Server) (c : SMTP) (email : Email) (w0 : World),
     (forall h call, call <> CallWriterClose -> srv' h call = srv h call) ->
     accepted srv (wire w0) (handshake c ++ (CallRcpt <$> To email) ++ [CallData]) = true ->
     (SendMail srv' c email w0).1 = (SendMail srv c email w0).1).
Proof.
  split.
  - intros srv c email [h out] closeErr. unfold entered_data. cbn [wire stdout].
    intros Hacc Hclose.
    eexists. split; [by apply SendMail_data_phase|].
    cbn [stdout wire]. by rewrite Hclose.
  - intros srv srv' c email [h out] Hagree Hacc. cbn [wire] in Hacc.
    assert (Hacc' : accepted srv' h
                      (handshake c ++ (CallRcpt <$> To email) ++ [CallData]) = true).
    { rewrite (accepted_agree srv srv' Hagree); [done|].
      apply before_data_no_writer_close. }
    rewrite !SendMail_data_phase by done. cbn [fst].
    by rewrite Hagree.
Qed.

Lemma SendMail_writer_close_failure_witness :
  accepted srv_bad_close (wire fresh)
    (handshake client_example ++ (CallRcpt <$> To email_single) ++ [CallData]) = true /\
  srv_bad_close
    (entered_data client_example email_single (wire fresh) ++
     [CallWrite (message email_single)]) CallWriterClose
    = Some "554 transaction failed" /\
  (exists w1,
     SendMail srv_bad_close client_example email_single fresh =
       (match srv_bad_close (entered_data client_example email_single (wire fresh))
                (CallWrite (message email_single)) with
        | Some writeErr => Some (SendError client_example writeErr)
        | None => None
        end, w1) /\
     stdout w1 = stdout fresh ++ [CleanupWarning "554 transaction failed"] /\
     wire w1 = entered_data client_example email_single (wire fresh) ++
               [CallWrite (message email_single); CallWriterClose; CallClose]) /\
  (forall h call, call <> CallWriterClose -> srv_bad_close h call = srv_ok h call) /\
  accepted srv_ok (wire fresh)
    (handshake client_example ++ (CallRcpt <$> To email_single) ++ [CallData]) = true /\
  (SendMail srv_bad_close client_example email_single fresh).1 =
  (SendMail srv_ok client_example email_single fresh).1.
Proof.
  assert (Hagree : forall h call,
             call <> CallWriterClose -> srv_bad_close h call = srv_ok h call).
  { intros h call Hcall. destruct call; try reflexivity. by destruct Hcall. }
  split; [reflexivity|]. split; [reflexivity|]. split.
  - apply (proj1 SendMail_writer_close_failure srv_bad_close client_example email_single
             fresh "554 transaction failed"); reflexivity.
  - split; [exact Hagree|]. split; [reflexivity|].
    apply (proj2 SendMail_writer_close_failure srv_ok srv_bad_close client_example
             email_single fresh); [exact Hagree | reflexivity].
Defined.

(** C10.  With an empty [To], [SendMail] raises no [RecipientError]:
    it declares no recipient and goes from the handshake straight to the
    data phase; the message carries the line [To: \r\n]; the outcome is
    what the peer answers to [Data] and to the write. *)
Theorem SendMail_no_recipients (srv : Server) (c : SMTP) (email : Email) (w0 : World) :
  To email = [] ->
  (exists rest,
     message email =
       "Subject: " +:+ Subject email +:+ CRLF +:+ "To: " +:+ CRLF +:+ rest) /\
  (forall msg : string, (SendMail srv c email w0).1 <> Some (RecipientError msg)) /\
  (accepted srv (wire w0) (handshake c) = true ->
   exists w1 calls,
     SendMail srv c email w0 =
       (match srv (wire w0 ++ handshake c) CallData with
        | Some e => Some (DataPhaseError e)
        | None =>
            match srv (wire w0 ++ handshake c ++ [CallData])
                      (CallWrite (message email)) with
            | Some e => Some (SendError c e)
            | None => None
            end
        end, w1) /\
     wire w1 = wire w0 ++ handshake c ++ CallData :: calls /\
     count isRcpt (CallData :: calls) = 0%nat).
Proof.
  intros HTo. split; [|split].
  - eexists. unfold message. rewrite HTo. reflexivity.
  - intros msg Hrun.
    pose proof (SendMail_exit_path srv c email w0) as Hexit.
    destruct (SendMail srv c email w0) as [r w1]. cbn [fst] in Hrun. subst r.
    inversion Hexit as [e w1' Hfail Heq | pre addr post msg' HTo' Heq | e Heq
                        | r out [Hr | [e Hr]] Heq]; try discriminate.
    rewrite HTo in HTo'. by destruct pre.
  - destruct w0 as [h out]. cbn [wire]. intros Hhs.
    destruct (srv (h ++ handshake c) CallData) as [e|] eqn:Hdata.
    + exists (mkWorld (h ++ handshake c ++ [CallData; CallClose]) out), [CallClose].
      split; [|done].
      rewrite (SendMail_data_refused srv c email e); rewrite HTo; cbn [fmap list_fmap app].
      * done.
      * by rewrite app_nil_r.
      * done.
    + eexists _, [CallWrite (message email); CallWriterClose; CallClose].
      rewrite SendMail_data_phase; rewrite HTo; cbn [fmap list_fmap app].
      * split; [reflexivity|]. cbn [wire]. split; [|done].
        by rewrite <- !app_assoc.
      * rewrite accepted_app, Hhs. cbn [andb accepted]. by rewrite Hdata.
Qed.

Lemma SendMail_no_recipients_witness :
  To (mkEmail [] [] [] "S" "B") = [] /\
  accepted srv_ok (wire fresh) (handshake client_example) = true /\
  (exists rest,
     message (mkEmail [] [] [] "S" "B") =
       "Subject: " +:+ Subject (mkEmail [] [] [] "S" "B") +:+ CRLF +:+
       "To: " +:+ CRLF +:+ rest) /\
  (forall msg : string,
     (SendMail srv_ok client_example (mkEmail [] [] [] "S" "B") fresh).1 <>
       Some (RecipientError msg)) /\
  (exists w1 calls,
     SendMail srv_ok client_example (mkEmail [] [] [] "S" "B") fresh =
       (match srv_ok (wire fresh ++ handshake client_example) CallData with
        | Some e => Some (DataPhaseError e)
        | None =>
            match srv_ok (wire fresh ++ handshake client_example ++ [CallData])
                         (CallWrite (message (mkEmail [] [] [] "S" "B"))) with
            | Some e => Some (SendError client_example e)
            | None => None
            end
        end, w1) /\
     wire w1 = wire fresh ++ handshake client_example ++ CallData :: calls /\
     count isRcpt (CallData :: calls) = 0%nat).
Proof.
  split; [reflexivity|]. split; [reflexivity|].
  destruct (SendMail_no_recipients srv_ok client_example (mkEmail [] [] [] "S" "B") fresh)
    as (Hmsg & Hnever & Hrun); [reflexivity|].
  split; [exact Hmsg|]. split; [exact Hnever|]. apply Hrun. reflexivity.
Defined.

(** ** [strings.Replace] without limit *)

Lemma prefix_cons_eq (a : ascii) (s1 s2 : string) :
  String.prefix (String a s1) (String a s2) = String.prefix s1 s2.
Proof. cbn [String.prefix]. by destruct (ascii_dec a a). Qed.

Lemma prefix_cons_ne (a b : ascii) (s1 s2 : string) :
  a <> b -> String.prefix (String a s1) (String b s2) = false.
Proof. intros Hne. cbn [String.prefix]. by destruct (ascii_dec a b). Qed.

Lemma prefix_append (s tail : string) : String.prefix s (s +:+ tail) = true.
Proof.
  induction s as [|a s IH]; [by destruct tail|].
  by rewrite append_cons, prefix_cons_eq.
Qed.

Section ReplaceAll.

Variables (c0 : ascii) (old' new : string).

Local Abbreviation old := (String c0 old').
Local Abbreviation R := (strings.replaceFrom old new None 0).

Lemma Replace_all (s : string) : strings.Replace s old new (-1) = R s.
Proof. reflexivity. Qed.

(** The bytes of a matched occurrence are passed over. *)
Lemma replaceFrom_skip (u rest : string) :
  strings.replaceFrom old new None (String.length u) (u +:+ rest) = R rest.
Proof.
  induction u as [|a u IH]; [done|].
  rewrite append_cons. cbn [String.length strings.replaceFrom]. exact IH.
Qed.

(** An occurrence at the head is replaced and the scan resumes behind it. *)
Lemma replace_hit (tail : string) : R (old +:+ tail) = new +:+ R tail.
Proof.
  rewrite append_cons. cbn [strings.replaceFrom].
  rewrite <- append_cons, prefix_append.
  cbn [String.length Nat.pred fmap option_fmap option_map].
  by rewrite replaceFrom_skip.
Qed.

(** No occurrence at the head: the byte is kept. *)
Lemma replace_miss (ch : ascii) (rest : string) :
  String.prefix old (String ch rest) = false ->
  R (String ch rest) = String ch (R rest).
Proof. intros H. cbn [strings.replaceFrom]. by rewrite H. Qed.

Lemma replace_miss_char (ch : ascii) (rest : string) :
  ch <> c0 -> R (String ch rest) = String ch (R rest).
Proof. intros H. apply replace_miss. by apply prefix_cons_ne. Qed.

End ReplaceAll.

(** ** Substitution in plain templates *)

Lemma placeholder_unfold (key : string) :
  placeholder key = String "{" (String "{" (key +:+ "}}")).
Proof. reflexivity. Qed.

Lemma brace_free_cons (ch : ascii) (s : string) :
  brace_free (String ch s) = true ->
  ch <> "{"%char /\ ch <> "}"%char /\ brace_free s = true.
Proof.
  cbn [brace_free]. unfold is_brace. intros H.
  apply andb_true_iff in H as [Hch Hs]. apply negb_true_iff, orb_false_iff in Hch as [Ho Hc].
  by apply Ascii.eqb_neq in Ho, Hc.
Qed.

(** Two brace-free names whose closed placeholders start alike are equal. *)
Lemma key_prefix_inj (k : string) :
  forall (k' rest : string),
    brace_free k = true -> brace_free k' = true ->
    String.prefix (k +:+ "}}") (k' +:+ "}}" +:+ rest) = true ->
    k = k'.
Proof.
  induction k as [|a k IH]; intros [|b k'] rest Hk Hk' Hp; [done| | |].
  - apply brace_free_cons in Hk' as (_ & Hb & _).
    rewrite append_nil_l, !append_cons, prefix_cons_ne in Hp; [done | congruence].
  - apply brace_free_cons in Hk as (_ & Ha & _).
    rewrite append_nil_l, !append_cons, prefix_cons_ne in Hp; done.
  - apply brace_free_cons in Hk as (_ & _ & Hk).
    apply brace_free_cons in Hk' as (_ & _ & Hk').
    rewrite !append_cons in Hp. destruct (decide (a = b)) as [->|Hne].
    + rewrite prefix_cons_eq in Hp. f_equal. by apply (IH k' rest).
    + by rewrite prefix_cons_ne in Hp.
Qed.

Section Substitution.

Variables (key new : string).
Hypothesis key_plain : brace_free key = true.

Local Abbreviation R := (strings.replaceFrom (placeholder key) new None 0).

(** Text without braces holds no occurrence of the placeholder. *)
Lemma replace_text (s rest : string) :
  brace_free s = true -> R (s +:+ rest) = s +:+ R rest.
Proof.
  induction s as [|ch s IH]; intros Hs; [done|].
  apply brace_free_cons in Hs as (Ho & _ & Hs).
  rewrite !append_cons, placeholder_unfold, replace_miss_char by done.
  rewrite <- placeholder_unfold. f_equal. by apply IH.
Qed.

(** The placeholder of [key] is replaced. *)
Lemma replace_same (rest : string) :
  R (placeholder key +:+ rest) = new +:+ R rest.
Proof. rewrite !placeholder_unfold. apply replace_hit. Qed.

(** The placeholder of another name is left as it is. *)
Lemma replace_other (k' rest : string) :
  brace_free k' = true -> k' <> key ->
  R (placeholder k' +:+ rest) = placeholder k' +:+ R rest.
Proof.
  intros Hk' Hne.
  rewrite (placeholder_unfold k'), !append_cons, append_assoc.
  rewrite (placeholder_unfold key).
  rewrite replace_miss.
  2:{ rewrite !prefix_cons_eq. destruct (String.prefix _ _) eqn:Hp; [|done].
      apply key_prefix_inj in Hp; congruence. }
  rewrite replace_miss.
  2:{ rewrite prefix_cons_eq. destruct k' as [|b k'].
      - by rewrite append_nil_l, append_cons, prefix_cons_ne.
      - apply brace_free_cons in Hk' as (Hb & _ & _).
        rewrite append_cons, prefix_cons_ne; [done | congruence]. }
  rewrite <- (placeholder_unfold key), replace_text by done.
  rewrite !append_cons, append_nil_l, (placeholder_unfold key).
  rewrite !replace_miss_char by done.
  by rewrite append_assoc.
Qed.

End Substitution.

Lemma flat_cons (sg : segment) (t : template) :
  flat (sg :: t) = flat_segment sg +:+ flat t.
Proof. reflexivity. Qed.

(** One [Replace] of [ParseBody] on a plain template substitutes one key. *)
Lemma Replace_flat (key : string) (value : Value) (t : template) :
  brace_free key = true ->
  plain_template t = true ->
  strings.Replace (flat t) (placeholder key) (Sprintf_v value) (-1) =
  flat (render {[ key := value ]} t).
Proof.
  intros Hkey. rewrite placeholder_unfold, Replace_all, <- placeholder_unfold.
  induction t as [|sg t IH]; intros Ht; [done|].
  cbn [plain_template forallb] in Ht. apply andb_true_iff in Ht as [Hsg Ht].
  unfold render. rewrite fmap_cons, !flat_cons. fold (render {[ key := value ]} t).
  destruct sg as [s|k']; cbn [plain_segment flat_segment render_segment] in *.
  - rewrite replace_text by done. f_equal. by apply IH.
  - destruct (decide (k' = key)) as [->|Hne].
    + rewrite lookup_singleton_eq. cbn [flat_segment].
      rewrite replace_same. f_equal. by apply IH.
    + rewrite lookup_singleton_ne by done. cbn [flat_segment].
      rewrite replace_other by done. f_equal. by apply IH.
Qed.

Lemma render_plain (key : string) (value : Value) (t : template) :
  brace_free (Sprintf_v value) = true ->
  plain_template t = true ->
  plain_template (render {[ key := value ]} t) = true.
Proof.
  intros Hv. induction t as [|sg t IH]; intros Ht; [done|].
  cbn [plain_template forallb] in Ht. apply andb_true_iff in Ht as [Hsg Ht].
  unfold render. rewrite fmap_cons. cbn [plain_template forallb].
  apply andb_true_iff. split; [|by apply IH].
  destruct sg as [s|k']; [done|]. cbn [render_segment].
  destruct (decide (k' = key)) as [->|Hne].
  - by rewrite lookup_singleton_eq.
  - by rewrite lookup_singleton_ne.
Qed.

Lemma render_empty (t : template) : render ∅ t = t.
Proof.
  unfold render. induction t as [|sg t IH]; [done|].
  rewrite fmap_cons, IH. destruct sg as [s|k']; [done|].
  cbn [render_segment]. by rewrite lookup_empty.
Qed.

(** Substituting one key and then the others is substituting them all,
    the first one taking precedence. *)
Lemma render_insert (parameters : gmap string Value) (key : string) (value : Value)
    (t : template) :
  render parameters (render {[ key := value ]} t) = render (<[ key := value ]> parameters) t.
Proof.
  unfold render. rewrite <- list_fmap_compose. apply list_fmap_ext.
  intros _ [s|k'] _; [done|]. cbn [compose render_segment].
  destruct (decide (k' = key)) as [->|Hne].
  - by rewrite lookup_singleton_eq, lookup_insert_eq.
  - by rewrite lookup_singleton_ne, lookup_insert_ne.
Qed.

Lemma ParseBody_render_list (kvs : list (string * Value)) :
  forall t : template,
    plain_template t = true ->
    forallb plain_entry kvs = true ->
    ParseBody (flat t) kvs = flat (render (list_to_map kvs) t).
Proof.
  induction kvs as [|[key value] kvs IH]; intros t Ht Hkvs.
  - cbn [ParseBody list_to_map foldr]. by rewrite render_empty.
  - cbn [forallb] in Hkvs. apply andb_true_iff in Hkvs as [Hkv Hkvs].
    unfold plain_entry in Hkv. cbn [fst snd] in Hkv.
    apply andb_true_iff in Hkv as [Hkey Hvalue].
    cbn [ParseBody]. fold (placeholder key).
    rewrite Replace_flat by done.
    rewrite IH by (by try apply render_plain).
    by rewrite render_insert.
Qed.

(** On a plain template, with plain keys and values, [ParseBody] is the
    simultaneous substitution, in whatever order the map is visited. *)
Lemma ParseBody_render (t : template) (parameters : gmap string Value)
    (kvs : list (string * Value)) :
  plain_template t = true ->
  forallb plain_entry kvs = true ->
  visits parameters kvs ->
  ParseBody (flat t) kvs = flat (render parameters t).
Proof.
  intros Ht Hkvs Hvisit. rewrite ParseBody_render_list by done.
  by rewrite <- (list_to_map_flip parameters kvs).
Qed.

Lemma visits_list_to_map (kvs : list (string * Value)) :
  NoDup kvs.*1 -> visits (list_to_map kvs) kvs.
Proof. intros H. unfold visits. by rewrite map_to_list_to_map. Qed.

Lemma forallb_visits (p : string * Value -> bool) (kvs1 kvs2 : list (string * Value)) :
  kvs1 ≡ₚ kvs2 -> forallb p kvs1 = true -> forallb p kvs2 = true.
Proof.
  intros Hperm. rewrite !forallb_forall. intros H x Hx.
  apply H. by rewrite <- list_elem_of_In, Hperm, list_elem_of_In.
Qed.

(** Without an occurrence of [old], [Replace] gives back its argument. *)
Lemma replace_absent (c0 : ascii) (old' new : string) (s : string) :
  occurs (String c0 old') s = false ->
  strings.Replace s (String c0 old') new (-1) = s.
Proof.
  rewrite Replace_all. induction s as [|ch s IH]; intros H; [done|].
  cbn [occurs] in H. apply orb_false_iff in H as [Hhead Htail].
  rewrite replace_miss by done. f_equal. by apply IH.
Qed.

Lemma visits_nested_a_b : visits parameters_nested visit_a_b.
Proof.
  unfold visits, parameters_nested, visit_a_b.
  rewrite map_to_list_insert by done. by rewrite map_to_list_singleton.
Qed.

Lemma visits_nested_b_a : visits parameters_nested visit_b_a.
Proof.
  unfold visits. rewrite <- visits_nested_a_b. apply Permutation_swap.
Qed.

(** ** [ParseBody] *)

(** C3 (as amended).  When the body is a plain template and neither the
    keys nor the texts of the values contain a brace, any two orders of
    visiting the mapping give the same result.  Outside these conditions
    the order matters: a value that is the placeholder of another key is
    expanded when that key is visited after it. *)
Theorem ParseBody_order_independent :
  (forall (t : template) (parameters : gmap string Value)
          (kvs1 kvs2 : list (string * Value)),
     plain_template t = true ->
     forallb plain_entry kvs1 = true ->
     visits parameters kvs1 ->
     visits parameters kvs2 ->
     ParseBody (flat t) kvs1 = ParseBody (flat t) kvs2) /\
  (forall (key other : string) (value : Value),
     key <> other ->
     visits (<[ key := VString (placeholder other) ]> {[ other := value ]})
            [(key, VString (placeholder other)); (other, value)] /\
     ParseBody (placeholder key) [(key, VString (placeholder other)); (other, value)] =
       Sprintf_v value).
Proof.
  split.
  - intros t parameters kvs1 kvs2 Ht Hplain H1 H2.
    assert (Hplain2 : forallb plain_entry kvs2 = true).
    { apply (forallb_visits _ kvs1); [|done]. unfold visits in *. by rewrite H1, H2. }
    rewrite (ParseBody_render t parameters kvs1) by done.
    by rewrite (ParseBody_render t parameters kvs2).
  - intros key other value Hne. split.
    + unfold visits. rewrite map_to_list_insert by (by rewrite lookup_singleton_ne).
      by rewrite map_to_list_singleton.
    + cbn [ParseBody Sprintf_v]. fold (placeholder key) (placeholder other).
      rewrite (placeholder_unfold key), Replace_all.
      rewrite <- (append_nil_r (String "{" (String "{" (key +:+ "}}")))) at 2.
      rewrite replace_hit. cbn [strings.replaceFrom]. rewrite append_nil_r.
      rewrite (placeholder_unfold other), Replace_all.
      rewrite <- (append_nil_r (String "{" (String "{" (other +:+ "}}")))) at 2.
      rewrite replace_hit. cbn [strings.replaceFrom]. by rewrite append_nil_r.
Qed.

Lemma ParseBody_order_independent_witness :
  plain_template template_hello = true /\
  forallb plain_entry [("name", VString "Sam"); ("unused", VInt 7)] = true /\
  visits (list_to_map [("name", VString "Sam"); ("unused", VInt 7)])
         [("name", VString "Sam"); ("unused", VInt 7)] /\
  visits (list_to_map [("name", VString "Sam"); ("unused", VInt 7)])
         [("unused", VInt 7); ("name", VString "Sam")] /\
  ParseBody (flat template_hello) [("name", VString "Sam"); ("unused", VInt 7)] =
  ParseBody (flat template_hello) [("unused", VInt 7); ("name", VString "Sam")] /\
  "a" <> "b" /\
  ParseBody (placeholder "a") [("a", VString (placeholder "b")); ("b", VInt 7)] =
    Sprintf_v (VInt 7).
Proof.
  assert (Hv : visits (list_to_map [("name", VString "Sam"); ("unused", VInt 7)])
                      [("name", VString "Sam"); ("unused", VInt 7)]).
  { apply visits_list_to_map. cbn. apply NoDup_cons. split; [|apply NoDup_singleton].
    rewrite list_elem_of_singleton. discriminate. }
  assert (Hv' : visits (list_to_map [("name", VString "Sam"); ("unused", VInt 7)])
                       [("unused", VInt 7); ("name", VString "Sam")]).
  { unfold visits in *. rewrite <- Hv. apply Permutation_swap. }
  split; [reflexivity|]. split; [reflexivity|]. split; [exact Hv|]. split; [exact Hv'|].
  split.
  - apply (proj1 ParseBody_order_independent template_hello
             (list_to_map [("name", VString "Sam"); ("unused", VInt 7)])
             [("name", VString "Sam"); ("unused", VInt 7)]
             [("unused", VInt 7); ("name", VString "Sam")]);
      [reflexivity | reflexivity | exact Hv | exact Hv'].
  - split; [discriminate|].
    apply (proj2 ParseBody_order_independent "a" "b" (VInt 7)). discriminate.
Defined.

(** C3, refuted as stated: the body [{{a}}] and a mapping in which the
    value of [a] is [{{b}}].  Visiting [a] first expands the inserted
    [{{b}}]; visiting [b] first does not. *)
Lemma ParseBody_order_dependent :
  visits parameters_nested visit_a_b /\
  visits parameters_nested visit_b_a /\
  ParseBody "{{a}}" visit_a_b = "X" /\
  ParseBody "{{a}}" visit_b_a = "{{b}}" /\
  ParseBody "{{a}}" visit_a_b <> ParseBody "{{a}}" visit_b_a.
Proof.
  split; [exact visits_nested_a_b|]. split; [exact visits_nested_b_a|].
  split; [reflexivity|]. split; [reflexivity|]. discriminate.
Qed.

(** C8 (as amended).  On a plain template, with keys and value texts
    free of braces, [ParseBody] in any order of visit replaces every
    placeholder whose name is a key by the text of its value and leaves
    the other placeholders and the text as they are.  For any body, a
    key whose placeholder does not occur in it when the key is visited
    changes nothing.  The example of the specification holds. *)
Theorem ParseBody_substitutes :
  (forall (t : template) (parameters : gmap string Value) (kvs : list (string * Value)),
     plain_template t = true ->
     forallb plain_entry kvs = true ->
     visits parameters kvs ->
     ParseBody (flat t) kvs = flat (render parameters t)) /\
  (forall (body key : string) (value : Value) (rest : list (string * Value)),
     occurs (placeholder key) body = false ->
     ParseBody body ((key, value) :: rest) = ParseBody body rest) /\
  visits {[ "name" := VString "Sam" ]} [("name", VString "Sam")] /\
  ParseBody "Hello {{name}}, {{unused}}" [("name", VString "Sam")] =
    "Hello Sam, {{unused}}".
Proof.
  split; [exact ParseBody_render|]. split.
  - intros body key value rest H. cbn [ParseBody]. fold (placeholder key).
    rewrite placeholder_unfold in *. by rewrite replace_absent.
  - split; [|reflexivity]. unfold visits. by rewrite map_to_list_singleton.
Qed.

Lemma ParseBody_substitutes_witness :
  plain_template template_hello = true /\
  forallb plain_entry [("name", VString "Sam")] = true /\
  visits {[ "name" := VString "Sam" ]} [("name", VString "Sam")] /\
  ParseBody (flat template_hello) [("name", VString "Sam")] =
    flat (render {[ "name" := VString "Sam" ]} template_hello) /\
  occurs (placeholder "absent") "Hello {{name}}" = false /\
  ParseBody "Hello {{name}}" [("absent", VNil); ("name", VString "Sam")] =
    ParseBody "Hello {{name}}" [("name", VString "Sam")].
Proof.
  split; [reflexivity|]. split; [reflexivity|].
  split; [exact (proj1 (proj2 (proj2 ParseBody_substitutes)))|].
  split.
  - apply (proj1 ParseBody_substitutes template_hello
             {[ "name" := VString "Sam" ]} [("name", VString "Sam")]);
      [reflexivity | reflexivity | exact (proj1 (proj2 (proj2 ParseBody_substitutes)))].
  - split; [reflexivity|].
    apply (proj1 (proj2 ParseBody_substitutes) "Hello {{name}}" "absent" VNil
             [("name", VString "Sam")]).
    reflexivity.
Defined.

(** C8, refuted as stated: in the body [{{a}}] the placeholder of [b]
    does not occur, yet with [a] visited first the key [b] is not
    ignored, and [{{a}}] does not end up replaced by the text of its
    value. *)
Lemma ParseBody_unused_key_not_ignored :
  visits parameters_nested visit_a_b /\
  occurs (placeholder "b") "{{a}}" = false /\
  ParseBody "{{a}}" visit_a_b = "X" /\
  ParseBody "{{a}}" [("a", VString "{{b}}")] = "{{b}}" /\
  flat (render parameters_nested [Placeholder "a"]) = "{{b}}" /\
  ParseBody (flat [Placeholder "a"]) visit_a_b <>
    flat (render parameters_nested [Placeholder "a"]).
Proof.
  split; [exact visits_nested_a_b|]. split; [reflexivity|].
  split; [reflexivity|]. split; [reflexivity|].
  assert (Hr : flat (render parameters_nested [Placeholder "a"]) = "{{b}}").
  { unfold render, parameters_nested. rewrite fmap_cons. cbn [render_segment].
    by rewrite lookup_insert_eq. }
  split; [exact Hr|]. rewrite Hr. discriminate.
Qed.


(** * Further properties of the code *)

(** ** All runs of [GetClient] and [SendMail] *)

(** [GetClient] goes through the handshake until the first call the
    peer rejects. *)
Lemma GetClient_steps (srv : Server) (c : SMTP) (h : list Call) (out : list string) :
  (accepted srv h (handshake c) = true /\
   GetClient srv c (mkWorld h out) =
     (Ok (mkClient (host c +:+ ":" +:+ port c)), mkWorld (h ++ handshake c) out)) \/
  (exists n call e,
     handshake c !! n = Some call /\
     accepted srv h (take n (handshake c)) = true /\
     srv (h ++ take n (handshake c)) call = Some e /\
     GetClient srv c (mkWorld h out) =
       (Err (handshake_error n e), mkWorld (h ++ take (S n) (handshake c)) out)).
Proof.
  set (d := CallDial (host c +:+ ":" +:+ port c)).
  set (t := CallStartTLS (mkTlsConfig true (host c))).
  set (a := CallAuth (auth c)).
  set (m := CallMail (senderAddress c)).
  assert (Hhs : handshake c = [d; t; a; m]) by done. rewrite !Hhs. clear Hhs.
  unfold GetClient, Dial, StartTLS, DoAuth, Mail, bind, ret. fold d t a m.
  rewrite call_run. destruct (srv h d) as [e|] eqn:H0.
  { right. exists 0%nat, d, e. cbn [take accepted]. by rewrite app_nil_r. }
  rewrite call_run. destruct (srv (h ++ [d]) t) as [e|] eqn:H1.
  { right. exists 1%nat, t, e. cbn [take accepted]. rewrite H0.
    by rewrite <- !app_assoc. }
  rewrite call_run. destruct (srv ((h ++ [d]) ++ [t]) a) as [e|] eqn:H2.
  { right. exists 2%nat, a, e. cbn [take accepted]. rewrite H0, H1.
    rewrite <- !app_assoc in *. done. }
  rewrite call_run. destruct (srv (((h ++ [d]) ++ [t]) ++ [a]) m) as [e|] eqn:H3.
  { right. exists 3%nat, m, e. cbn [take accepted]. rewrite H0, H1, H2.
    rewrite <- !app_assoc in *. done. }
  left. cbn [accepted]. rewrite H0, H1, H2, H3.
  by rewrite <- !app_assoc.
Qed.

Lemma SendMail_run (srv : Server) (c : SMTP) (email : Email) (w0 : World) :
  exists r calls printed,
    SendMail srv c email w0 = (r, mkWorld (wire w0 ++ calls) (stdout w0 ++ printed)) /\
    run_of srv c email (wire w0) r calls printed.
Proof.
  destruct w0 as [h out]. cbn [wire stdout].
  destruct (GetClient_steps srv c h out) as [[Hhs _] | (n & call & e & Hn & Hacc & Hrej & Hrun)].
  2:{ rewrite (SendMail_GetClient_failed _ _ _ _ _ _ Hrun).
      eexists _, _, []. rewrite (app_nil_r out). split; [reflexivity|].
      by apply (run_handshake srv c email h n call e). }
  destruct (rcpt_outcome srv (To email) (h ++ handshake c))
    as [Hall | (pre & addr & post & msg & HTo & Hpre & Hrej)].
  - destruct (srv (h ++ handshake c ++ (CallRcpt <$> To email)) CallData) as [e|] eqn:Hdata.
    + rewrite (SendMail_data_refused srv c email e); [| by rewrite accepted_app, Hhs | done].
      eexists _, _, []. rewrite (app_nil_r out). split; [reflexivity|].
      apply run_data; [by rewrite accepted_app, Hhs | done].
    + assert (Hreach : accepted srv h
                (handshake c ++ (CallRcpt <$> To email) ++ [CallData]) = true).
      { rewrite !accepted_app, Hhs, Hall. cbn [andb accepted].
        by rewrite <- app_assoc, Hdata. }
      rewrite SendMail_data_phase by done.
      exists (SendError c <$> srv (entered_data c email h) (CallWrite (message email))),
             (handshake c ++ (CallRcpt <$> To email) ++
              [CallData; CallWrite (message email); CallWriterClose; CallClose]),
             (match srv (entered_data c email h ++ [CallWrite (message email)])
                        CallWriterClose with
              | Some e => [CleanupWarning e]
              | None => []
              end).
      split; [|by apply run_written].
      unfold entered_data. do 2 f_equal. by rewrite <- !app_assoc.
  - rewrite (SendMail_rcpt_rejected srv c email pre addr post msg);
      [| done | by rewrite accepted_app, Hhs | by rewrite app_assoc].
    eexists _, _, []. rewrite (app_nil_r out). split; [reflexivity|].
    apply (run_recipient srv c email h pre addr post msg);
      [done | by rewrite accepted_app, Hhs | by rewrite app_assoc].
Qed.

(** A call the peer rejects makes every list of calls through it
    unaccepted. *)
Lemma accepted_rejected (srv : Server) (h l1 : list Call) (call : Call) (l2 : list Call)
    (e : string) :
  srv (h ++ l1) call = Some e ->
  accepted srv h (l1 ++ call :: l2) = false.
Proof.
  intros Hrej. rewrite accepted_app. cbn [accepted]. rewrite Hrej.
  apply andb_false_r.
Qed.

Lemma accepted_rejected_at (srv : Server) (h l : list Call) (n : nat) (call : Call)
    (e : string) :
  l !! n = Some call ->
  srv (h ++ take n l) call = Some e ->
  accepted srv h l = false.
Proof.
  intros Hn Hrej. rewrite <- (take_drop_middle l n call Hn).
  by apply (accepted_rejected srv h (take n l) call _ e).
Qed.

Lemma accepted_prefix (srv : Server) (h l1 l2 : list Call) :
  accepted srv h (l1 ++ l2) = true -> accepted srv h l1 = true.
Proof. rewrite accepted_app. by intros [? _]%andb_true_iff. Qed.

Lemma filter_rcpts_none (p : Call -> bool) (to : list string) :
  (forall a, p (CallRcpt a) = false) -> List.filter p (CallRcpt <$> to) = [].
Proof.
  intros Hp. induction to as [|a to IH]; [done|].
  rewrite fmap_cons. cbn [List.filter]. by rewrite Hp.
Qed.

Lemma filter_rcpts_all (to : list string) :
  List.filter isRcpt (CallRcpt <$> to) = CallRcpt <$> to.
Proof.
  induction to as [|a to IH]; [done|].
  rewrite fmap_cons. cbn [List.filter isRcpt]. by rewrite IH.
Qed.

Lemma handshake_lookup (c : SMTP) (n : nat) (call : Call) :
  handshake c !! n = Some call -> (n < 4)%nat.
Proof. intros H. by apply lookup_lt_Some in H. Qed.

(** ** The handshake *)

(** X1.  [GetClient] makes the four calls of the handshake in order and
    stops at the first one the peer rejects: it then returns that
    step's error, wrapping the text of the peer, and attempts nothing
    after it.  It returns a client exactly when the peer accepts all
    four, and it prints nothing. *)
Theorem GetClient_first_rejection (srv : Server) (c : SMTP) (w0 : World) :
  ((accepted srv (wire w0) (handshake c) = true /\
    GetClient srv c w0 =
      (Ok (mkClient (host c +:+ ":" +:+ port c)),
       mkWorld (wire w0 ++ handshake c) (stdout w0))) \/
   (exists n call e,
      handshake c !! n = Some call /\
      accepted srv (wire w0) (take n (handshake c)) = true /\
      srv (wire w0 ++ take n (handshake c)) call = Some e /\
      GetClient srv c w0 =
        (Err (handshake_error n e),
         mkWorld (wire w0 ++ take (S n) (handshake c)) (stdout w0)))) /\
  ((exists client, (GetClient srv c w0).1 = Ok client) <->
   accepted srv (wire w0) (handshake c) = true).
Proof.
  destruct w0 as [h out]. cbn [wire stdout].
  destruct (GetClient_steps srv c h out)
    as [[Hacc Hrun] | (n & call & e & Hn & Hacc & Hrej & Hrun)].
  - split; [by left|]. rewrite Hrun. split; [done | by eexists].
  - split; [right; by exists n, call, e|].
    rewrite Hrun, (accepted_rejected_at srv h (handshake c) n call e Hn Hrej).
    cbn [fst]. split; [by intros [client [=]] | done].
Qed.

(** X2.  The credentials are handed to the transport at most once in a
    run of [SendMail], and only after the peer has accepted the dial
    and the TLS upgrade. *)
Theorem SendMail_auth_only_after_tls (srv : Server) (c : SMTP) (email : Email) (w0 : World) :
  exists r calls printed,
    SendMail srv c email w0 = (r, mkWorld (wire w0 ++ calls) (stdout w0 ++ printed)) /\
    (count isAuth calls <= 1)%nat /\
    (count isAuth calls = 1%nat ->
     accepted srv (wire w0)
       [CallDial (host c +:+ ":" +:+ port c);
        CallStartTLS (mkTlsConfig true (host c))] = true).
Proof.
  destruct (SendMail_run srv c email w0) as (r & calls & printed & Hrun & Hshape).
  exists r, calls, printed. split; [done|].
  assert (Hhs : count isAuth (handshake c) = 1%nat) by done.
  assert (Htwo : accepted srv (wire w0) (handshake c) = true ->
                 accepted srv (wire w0)
                   [CallDial (host c +:+ ":" +:+ port c);
                    CallStartTLS (mkTlsConfig true (host c))] = true).
  { intros H. by apply (accepted_prefix srv (wire w0) _ [CallAuth (auth c);
                                                         CallMail (senderAddress c)]). }
  inversion Hshape as [n call e Hn Hacc Hrej | pre addr post msg HTo Hacc Hrej
                       | e Hacc Hrej | wr cl Hacc Hwr Hcl]; subst.
  - destruct n as [|[|[|[|n]]]]; cbn [take handshake] in *; [| | | |done];
      unfold count; cbn [List.filter isAuth length];
      (split; [lia | intros Hcount; try discriminate Hcount]).
    + exact Hacc.
    + by apply (accepted_prefix srv (wire w0) _ [CallAuth (auth c)]).
  - rewrite !count_app, Hhs, count_rcpts by done. split; [done|]. intros _.
    apply Htwo. by apply (accepted_prefix _ _ _ _ Hacc).
  - rewrite !count_app, Hhs, count_rcpts by done. split; [done|]. intros _.
    apply Htwo. by apply (accepted_prefix _ _ _ _ Hacc).
  - rewrite !count_app, Hhs, count_rcpts by done. split; [done|]. intros _.
    apply Htwo. by apply (accepted_prefix _ _ _ _ Hacc).
Qed.

(** ** What a run of [SendMail] does and never does *)

Lemma handshake_unaccepted (srv : Server) (c : SMTP) (h l : list Call) (n : nat)
    (call : Call) (e : string) :
  handshake c !! n = Some call ->
  srv (h ++ take n (handshake c)) call = Some e ->
  accepted srv h (handshake c ++ l) = false.
Proof.
  intros Hn Hrej. rewrite accepted_app.
  by rewrite (accepted_rejected_at srv h (handshake c) n call e Hn Hrej).
Qed.

Lemma recipient_unaccepted (srv : Server) (c : SMTP) (email : Email) (h l : list Call)
    (pre : list string) (addr : string) (post : list string) (msg : string) :
  To email = pre ++ addr :: post ->
  srv (h ++ handshake c ++ (CallRcpt <$> pre)) (CallRcpt addr) = Some msg ->
  accepted srv h (handshake c ++ (CallRcpt <$> To email) ++ l) = false.
Proof.
  intros HTo Hrej. rewrite HTo, fmap_app, fmap_cons, <- !app_assoc.
  rewrite (app_assoc (handshake c)). cbn [app].
  by apply (accepted_rejected srv h _ _ _ msg).
Qed.

Lemma data_unaccepted (srv : Server) (c : SMTP) (email : Email) (h l : list Call)
    (e : string) :
  srv (h ++ handshake c ++ (CallRcpt <$> To email)) CallData = Some e ->
  accepted srv h (handshake c ++ (CallRcpt <$> To email) ++ CallData :: l) = false.
Proof.
  intros Hrej. rewrite (app_assoc (handshake c)).
  by apply (accepted_rejected srv h _ _ _ e).
Qed.

(** X3.  The only recipients [SendMail] declares are addresses of [To],
    from its first one on and in its order; the addresses of [Cc] and
    [Bcc] are never declared.  A call that returns nil has declared
    every address of [To]. *)
Theorem SendMail_declares_only_To (srv : Server) (c : SMTP) (email : Email) (w0 : World) :
  exists r calls printed n,
    SendMail srv c email w0 = (r, mkWorld (wire w0 ++ calls) (stdout w0 ++ printed)) /\
    List.filter isRcpt calls = CallRcpt <$> take n (To email) /\
    match r with
    | Some _ => True
    | None => List.filter isRcpt calls = CallRcpt <$> To email
    end.
Proof.
  destruct (SendMail_run srv c email w0) as (r & calls & printed & Hrun & Hshape).
  assert (Hhs : List.filter isRcpt (handshake c) = []) by done.
  inversion Hshape as [n call e Hn Hacc Hrej | pre addr post msg HTo Hacc Hrej
                       | e Hacc Hrej | wr cl Hacc Hwr Hcl]; subst.
  - exists (Some (handshake_error n e)), (take (S n) (handshake c)), [], 0%nat.
    split; [done|]. split; [|done].
    by destruct n as [|[|[|[|n]]]].
  - eexists _, _, [], (length (pre ++ [addr])). split; [done|]. split; [|done].
    rewrite !List.filter_app, Hhs, filter_rcpts_all, HTo. cbn [List.filter isRcpt app].
    rewrite (cons_middle addr pre post), app_assoc, take_app_length.
    by rewrite fmap_app.
  - eexists _, _, [], (length (To email)). split; [done|]. split; [|done].
    rewrite !List.filter_app, Hhs, filter_rcpts_all, firstn_all. cbn [List.filter isRcpt app].
    by rewrite app_nil_r.
  - eexists _, _, _, (length (To email)). split; [done|].
    assert (Hall : List.filter isRcpt
               (handshake c ++ (CallRcpt <$> To email) ++
                [CallData; CallWrite (message email); CallWriterClose; CallClose]) =
             CallRcpt <$> To email).
    { rewrite !List.filter_app, Hhs, filter_rcpts_all. cbn [List.filter isRcpt app].
      by rewrite app_nil_r. }
    split; [by rewrite firstn_all|].
    by destruct (srv (entered_data c email (wire w0)) (CallWrite (message email))).
Qed.

(** X4.  [Data] is called at most once, and only after the peer has
    accepted the handshake and every address of [To]; at most one
    payload is written, it is the composed message, and only after the
    peer has accepted [Data]. *)
Theorem SendMail_phase_order (srv : Server) (c : SMTP) (email : Email) (w0 : World) :
  exists r calls printed,
    SendMail srv c email w0 = (r, mkWorld (wire w0 ++ calls) (stdout w0 ++ printed)) /\
    (if accepted srv (wire w0) (handshake c ++ (CallRcpt <$> To email))
     then count isData calls = 1%nat
     else count isData calls = 0%nat) /\
    (if accepted srv (wire w0) (handshake c ++ (CallRcpt <$> To email) ++ [CallData])
     then List.filter isWrite calls = [CallWrite (message email)]
     else List.filter isWrite calls = []).
Proof.
  destruct (SendMail_run srv c email w0) as (r & calls & printed & Hrun & Hshape).
  exists r, calls, printed. split; [done|].
  assert (Hd : count isData (handshake c) = 0%nat) by done.
  assert (Hw : List.filter isWrite (handshake c) = []) by done.
  inversion Hshape as [n call e Hn Hacc Hrej | pre addr post msg HTo Hacc Hrej
                       | e Hacc Hrej | wr cl Hacc Hwr Hcl]; subst.
  - rewrite <- (app_nil_r (CallRcpt <$> To email)) at 1.
    rewrite !(handshake_unaccepted srv c _ _ n call e Hn Hrej).
    by destruct n as [|[|[|[|n]]]].
  - rewrite <- (app_nil_r (CallRcpt <$> To email)) at 1.
    rewrite !(recipient_unaccepted srv c email _ _ pre addr post msg HTo Hrej).
    rewrite !count_app, Hd, count_rcpts by done.
    by rewrite !List.filter_app, Hw, filter_rcpts_none.
  - rewrite Hacc, (data_unaccepted srv c email _ _ e Hrej).
    rewrite !count_app, Hd, count_rcpts by done.
    by rewrite !List.filter_app, Hw, filter_rcpts_none.
  - rewrite Hacc, (accepted_prefix _ _ _ [CallData]) by (by rewrite <- app_assoc).
    rewrite !count_app, Hd, count_rcpts by done.
    by rewrite !List.filter_app, Hw, filter_rcpts_none.
Qed.



(** X6.  [SendMail] prints at most one line: the warning about the
    close of the writer, when that close fails, and nothing in any
    other run. *)
Theorem SendMail_prints_only_the_warning (srv : Server) (c : SMTP) (email : Email)
    (w0 : World) :
  exists r calls printed,
    SendMail srv c email w0 = (r, mkWorld (wire w0 ++ calls) (stdout w0 ++ printed)) /\
    printed =
      (if accepted srv (wire w0) (handshake c ++ (CallRcpt <$> To email) ++ [CallData])
       then match srv (entered_data c email (wire w0) ++ [CallWrite (message email)])
                      CallWriterClose with
            | Some e => [CleanupWarning e]
            | None => []
            end
       else []).
Proof.
  destruct (SendMail_run srv c email w0) as (r & calls & printed & Hrun & Hshape).
  exists r, calls, printed. split; [done|].
  inversion Hshape as [n call e Hn Hacc Hrej | pre addr post msg HTo Hacc Hrej
                       | e Hacc Hrej | wr cl Hacc Hwr Hcl]; subst.
  - by rewrite (handshake_unaccepted srv c _ _ n call e Hn Hrej).
  - by rewrite (recipient_unaccepted srv c email _ _ pre addr post msg HTo Hrej).
  - by rewrite (data_unaccepted srv c email _ _ e Hrej).
  - by rewrite Hacc.
Qed.

(** X7.  [SendMail] returns nil exactly when the peer accepts the
    handshake, every address of [To], [Data] and the write of the
    message; what the peer answers to the two closes plays no part. *)
Theorem SendMail_succeeds_iff (srv : Server) (c : SMTP) (email : Email) (w0 : World) :
  (SendMail srv c email w0).1 = None <->
  accepted srv (wire w0)
    (handshake c ++ (CallRcpt <$> To email) ++ [CallData; CallWrite (message email)])
    = true.
Proof.
  destruct (SendMail_run srv c email w0) as (r & calls & printed & Hrun & Hshape).
  rewrite Hrun. cbn [fst].
  inversion Hshape as [n call e Hn Hacc Hrej | pre addr post msg HTo Hacc Hrej
                       | e Hacc Hrej | wr cl Hacc Hwr Hcl]; subst.
  - by rewrite (handshake_unaccepted srv c _ _ n call e Hn Hrej).
  - by rewrite (recipient_unaccepted srv c email _ _ pre addr post msg HTo Hrej).
  - by rewrite (data_unaccepted srv c email _ _ e Hrej).
  - change [CallData; CallWrite (message email)]
      with ([CallData] ++ [CallWrite (message email)]).
    rewrite !app_assoc, accepted_app, <- !app_assoc, Hacc. cbn [andb accepted].
    fold (entered_data c email (wire w0)).
    by destruct (srv (entered_data c email (wire w0)) (CallWrite (message email))).
Qed.

Lemma SendMail_succeeds_iff_witness :
  (SendMail srv_bad_close client_example email_pair fresh).1 = None /\
  accepted srv_bad_close (wire fresh)
    (handshake client_example ++ (CallRcpt <$> To email_pair) ++
     [CallData; CallWrite (message email_pair)]) = true.
Proof.
  split; [|reflexivity].
  apply (proj2 (SendMail_succeeds_iff srv_bad_close client_example email_pair fresh)).
  reflexivity.
Defined.

(** X8.  Every run of [SendMail] starts by dialling [host:port]: no
    connection is kept from one call to the next, so two calls in a
    row dial twice. *)
Theorem SendMail_dials_every_time (srv : Server) (c : SMTP) (first second : Email)
    (w0 : World) :
  exists rest1 rest2,
    wire (SendMail srv c first w0).2 =
      wire w0 ++ CallDial (host c +:+ ":" +:+ port c) :: rest1 /\
    wire (SendMail srv c second (SendMail srv c first w0).2).2 =
      wire w0 ++ CallDial (host c +:+ ":" +:+ port c) :: rest1 ++
                 CallDial (host c +:+ ":" +:+ port c) :: rest2.
Proof.
  assert (Hdial : forall email w, exists rest,
             wire (SendMail srv c email w).2 =
               wire w ++ CallDial (host c +:+ ":" +:+ port c) :: rest).
  { intros email w.
    destruct (SendMail_run srv c email w) as (r & calls & printed & Hrun & Hshape).
    rewrite Hrun. cbn [snd wire].
    inversion Hshape as [n call e Hn Hacc Hrej | pre addr post msg HTo Hacc Hrej
                         | e Hacc Hrej | wr cl Hacc Hwr Hcl]; subst;
      [destruct n as [|[|[|[|n]]]]; [| | | |done] |..]; by eexists. }
  destruct (Hdial first w0) as [rest1 H1].
  destruct (Hdial second (SendMail srv c first w0).2) as [rest2 H2].
  exists rest1, rest2. split; [done|].
  rewrite H2, H1. by rewrite <- app_assoc.
Qed.

(** ** Construction, once more *)

(** X9.  [New] validates nothing: any strings, empty ones included, and
    any port that is a Go [int], zero and negative ones included, give
    a client, and [GetPort] gives the port back. *)
Theorem New_keeps_any_port (sender pass hostname : string) (portNumber : Z) :
  strconv.minInt <= portNumber <= strconv.maxInt ->
  exists c : SMTP,
    New sender pass hostname portNumber = Ok c /\
    port c = strconv.Itoa portNumber /\
    GetPort c = portNumber.
Proof.
  intros Hport. eexists. split; [reflexivity|]. split; [reflexivity|].
  unfold GetPort. cbn [port]. by rewrite Atoi_Itoa.
Qed.

Lemma New_keeps_any_port_witness :
  strconv.minInt <= -1 <= strconv.maxInt /\
  exists c : SMTP,
    New "" "" "" (-1) = Ok c /\
    port c = strconv.Itoa (-1) /\
    GetPort c = -1.
Proof.
  assert (H : strconv.minInt <= -1 <= strconv.maxInt) by (by vm_compute).
  split; [exact H|]. exact (New_keeps_any_port "" "" "" (-1) H).
Defined.

(** X10.  [GetPort] drops the error of [strconv.Atoi]: on a client whose
    port text is not a number, the zero value [SMTP{}] for one, it
    returns 0. *)
Theorem GetPort_of_unparsable_port (c : SMTP) :
  (strconv.Atoi (port c)).2 = Some strconv.ErrSyntax -> GetPort c = 0.
Proof.
  unfold GetPort, strconv.Atoi. destruct (port c) as [|c0 tl]; [done|].
  destruct (strconv.ParseUint _) as [un [[|]|]]; cbn [fst snd]; [done| |];
    unfold strconv.signed;
    repeat match goal with |- context [if ?b then _ else _] => destruct b end;
    by cbn [fst snd].
Qed.

Lemma GetPort_of_unparsable_port_witness :
  (strconv.Atoi (port zero_SMTP)).2 = Some strconv.ErrSyntax /\ GetPort zero_SMTP = 0.
Proof. split; [reflexivity|]. apply GetPort_of_unparsable_port. reflexivity. Defined.

(** X11.  What a client built by [New] puts on the wire to open a
    connection: it dials [host:port] with the port in decimal, asks for
    TLS with the host as server name and certificate verification
    switched off, authenticates with an empty identity, the sender
    address as user name, the password and the host, and announces the
    sender address. *)
Theorem New_client_handshake (srv : Server) (sender pass hostname : string)
    (portNumber : Z) (w0 : World) :
  accepted srv (wire w0)
    [ CallDial (hostname +:+ ":" +:+ strconv.Itoa portNumber);
      CallStartTLS (mkTlsConfig true hostname);
      CallAuth (Some (mkPlainAuth "" sender pass hostname));
      CallMail sender ] = true ->
  exists c : SMTP,
    New sender pass hostname portNumber = Ok c /\
    GetClient srv c w0 =
      (Ok (mkClient (hostname +:+ ":" +:+ strconv.Itoa portNumber)),
       mkWorld (wire w0 ++
                [ CallDial (hostname +:+ ":" +:+ strconv.Itoa portNumber);
                  CallStartTLS (mkTlsConfig true hostname);
                  CallAuth (Some (mkPlainAuth "" sender pass hostname));
                  CallMail sender ])
               (stdout w0)).
Proof.
  intros Hacc. eexists. split; [reflexivity|].
  destruct w0 as [h out]. by rewrite GetClient_accepted.
Qed.

Lemma New_client_handshake_witness :
  accepted srv_ok (wire fresh)
    [ CallDial ("smtp.x.com" +:+ ":" +:+ strconv.Itoa 587);
      CallStartTLS (mkTlsConfig true "smtp.x.com");
      CallAuth (Some (mkPlainAuth "" "me@x.com" "secret" "smtp.x.com"));
      CallMail "me@x.com" ] = true /\
  exists c : SMTP,
    New "me@x.com" "secret" "smtp.x.com" 587 = Ok c /\
    GetClient srv_ok c fresh =
      (Ok (mkClient ("smtp.x.com" +:+ ":" +:+ strconv.Itoa 587)),
       mkWorld (wire fresh ++
                [ CallDial ("smtp.x.com" +:+ ":" +:+ strconv.Itoa 587);
                  CallStartTLS (mkTlsConfig true "smtp.x.com");
                  CallAuth (Some (mkPlainAuth "" "me@x.com" "secret" "smtp.x.com"));
                  CallMail "me@x.com" ])
               (stdout fresh)).
Proof.
  split; [reflexivity|].
  apply (New_client_handshake srv_ok "me@x.com" "secret" "smtp.x.com" 587 fresh).
  reflexivity.
Defined.

(** ** [ParseBody], once more *)

Lemma occurs_cons (old : string) (ch : ascii) (rest : string) :
  occurs old (String ch rest) = String.prefix old (String ch rest) || occurs old rest.
Proof. reflexivity. Qed.

Lemma occurs_brace_free (key body : string) :
  brace_free body = true -> occurs (placeholder key) body = false.
Proof.
  rewrite placeholder_unfold. induction body as [|ch body IH]; intros Hbody; [done|].
  apply brace_free_cons in Hbody as (Ho & _ & Hbody).
  by rewrite occurs_cons, prefix_cons_ne, IH.
Qed.

Lemma ParseBody_absent (kvs : list (string * Value)) (body : string) :
  forallb (fun kv => negb (occurs (placeholder kv.1) body)) kvs = true ->
  ParseBody body kvs = body.
Proof.
  induction kvs as [|[key value] kvs IH]; intros H; [done|].
  cbn [forallb fst] in H. apply andb_true_iff in H as [Hkey H].
  apply negb_true_iff in Hkey.
  cbn [ParseBody]. fold (placeholder key). rewrite placeholder_unfold in *.
  rewrite replace_absent by done. by apply IH.
Qed.

(** X12.  [ParseBody] gives the body back unchanged when the
    placeholder of no key occurs in it, whatever the values and the
    order of the visit: so it does for an empty mapping, and for a body
    without braces under any mapping. *)
Theorem ParseBody_without_occurrence :
  (forall (body : string) (kvs : list (string * Value)),
     forallb (fun kv => negb (occurs (placeholder kv.1) body)) kvs = true ->
     ParseBody body kvs = body) /\
  (forall (body : string) (kvs : list (string * Value)),
     visits ∅ kvs -> ParseBody body kvs = body) /\
  (forall (body : string) (kvs : list (string * Value)),
     brace_free body = true -> ParseBody body kvs = body).
Proof.
  split; [|split].
  - intros body kvs. apply ParseBody_absent.
  - intros body kvs Hvisit. unfold visits in Hvisit.
    rewrite map_to_list_empty in Hvisit. by apply Permutation_nil_r in Hvisit as ->.
  - intros body kvs Hbody. apply ParseBody_absent.
    apply forallb_forall. intros [key value] _. cbn [fst].
    by rewrite occurs_brace_free.
Qed.

Lemma ParseBody_without_occurrence_witness :
  forallb (fun kv => negb (occurs (placeholder kv.1) "Dear {{name}}"))
          [("title", VString "{{name}}"); ("nam", VInt 3)] = true /\
  ParseBody "Dear {{name}}" [("title", VString "{{name}}"); ("nam", VInt 3)] =
    "Dear {{name}}" /\
  brace_free "plain text" = true /\
  ParseBody "plain text" visit_a_b = "plain text".
Proof.
  split; [reflexivity|]. split.
  - apply (proj1 ParseBody_without_occurrence). reflexivity.
  - split; [reflexivity|].
    apply (proj2 (proj2 ParseBody_without_occurrence)). reflexivity.
Defined.

Lemma plain_values (parameters : gmap string Value) (kvs : list (string * Value)) :
  forallb plain_entry kvs = true ->
  visits parameters kvs ->
  forall key value, parameters !! key = Some value -> brace_free (Sprintf_v value) = true.
Proof.
  intros Hplain Hvisit key value Hlookup.
  apply elem_of_map_to_list in Hlookup. unfold visits in Hvisit.
  rewrite <- Hvisit, list_elem_of_In in Hlookup.
  rewrite forallb_forall in Hplain. apply Hplain in Hlookup.
  unfold plain_entry in Hlookup. by apply andb_true_iff in Hlookup as [_ ?].
Qed.

Lemma render_plain_map (parameters : gmap string Value) (t : template) :
  (forall key value, parameters !! key = Some value ->
                     brace_free (Sprintf_v value) = true) ->
  plain_template t = true ->
  plain_template (render parameters t) = true.
Proof.
  intros Hvalues. induction t as [|sg t IH]; intros Ht; [done|].
  cbn [plain_template forallb] in Ht. apply andb_true_iff in Ht as [Hsg Ht].
  unfold render. rewrite fmap_cons. cbn [plain_template forallb].
  apply andb_true_iff. split; [|by apply IH].
  destruct sg as [s|key]; [done|]. cbn [render_segment].
  destruct (parameters !! key) as [value|] eqn:Hlookup; [|done].
  by apply (Hvalues key value).
Qed.

(** Substituting one mapping and then another is substituting their
    union, in which the first mapping takes precedence. *)
Lemma render_union (first second : gmap string Value) (t : template) :
  render second (render first t) = render (first ∪ second) t.
Proof.
  unfold render. rewrite <- list_fmap_compose. apply list_fmap_ext.
  intros _ [s|key] _; [done|]. cbn [compose render_segment].
  destruct (first !! key) as [value|] eqn:Hfirst.
  - by rewrite (lookup_union_Some_l _ _ _ _ Hfirst).
  - cbn [render_segment]. by rewrite lookup_union_r.
Qed.

Lemma ParseBody_render_twice (t : template) (first second : gmap string Value)
    (kvs1 kvs2 : list (string * Value)) :
  plain_template t = true ->
  forallb plain_entry kvs1 = true ->
  forallb plain_entry kvs2 = true ->
  visits first kvs1 ->
  visits second kvs2 ->
  ParseBody (ParseBody (flat t) kvs1) kvs2 = flat (render (first ∪ second) t).
Proof.
  intros Ht H1 H2 Hv1 Hv2.
  rewrite (ParseBody_render t first kvs1) by done.
  rewrite (ParseBody_render (render first t) second kvs2); [by rewrite render_union| |done..].
  apply render_plain_map; [|done]. by apply (plain_values first kvs1).
Qed.

(** X13.  On a plain template, with keys and value texts free of
    braces, filling the body from one mapping and the result from a
    second one is filling the body from their union, in which a key of
    both mappings has the value of the first. *)
Theorem ParseBody_twice_is_union (t : template) (first second : gmap string Value)
    (kvs1 kvs2 kvs : list (string * Value)) :
  plain_template t = true ->
  forallb plain_entry kvs1 = true ->
  forallb plain_entry kvs2 = true ->
  visits first kvs1 ->
  visits second kvs2 ->
  visits (first ∪ second) kvs ->
  ParseBody (ParseBody (flat t) kvs1) kvs2 = ParseBody (flat t) kvs.
Proof.
  intros Ht H1 H2 Hv1 Hv2 Hv.
  rewrite (ParseBody_render_twice t first second) by done.
  rewrite (ParseBody_render t (first ∪ second) kvs); [done..| |done].
  apply forallb_forall. intros [key value] Hin.
  apply list_elem_of_In in Hin. unfold visits in Hv. rewrite Hv in Hin.
  apply elem_of_map_to_list, lookup_union_Some_raw in Hin.
  assert (Hentry : forall (m : gmap string Value) l,
             forallb plain_entry l = true -> visits m l ->
             m !! key = Some value -> plain_entry (key, value) = true).
  { intros m l Hl Hvl Hm. apply elem_of_map_to_list in Hm. unfold visits in Hvl.
    rewrite <- Hvl, list_elem_of_In in Hm. rewrite forallb_forall in Hl. by apply Hl. }
  destruct Hin as [Hin | [_ Hin]]; [by apply (Hentry first kvs1) | by apply (Hentry second kvs2)].
Qed.

Lemma ParseBody_twice_is_union_witness :
  plain_template template_hello = true /\
  forallb plain_entry [("name", VString "Sam")] = true /\
  forallb plain_entry [("unused", VInt 7); ("name", VString "Max")] = true /\
  visits {[ "name" := VString "Sam" ]} [("name", VString "Sam")] /\
  visits (list_to_map [("unused", VInt 7); ("name", VString "Max")])
         [("unused", VInt 7); ("name", VString "Max")] /\
  visits ({[ "name" := VString "Sam" ]} ∪
          list_to_map [("unused", VInt 7); ("name", VString "Max")])
         [("name", VString "Sam"); ("unused", VInt 7)] /\
  ParseBody (ParseBody (flat template_hello) [("name", VString "Sam")])
            [("unused", VInt 7); ("name", VString "Max")] =
  ParseBody (flat template_hello) [("name", VString "Sam"); ("unused", VInt 7)].
Proof.
  assert (H1 : visits {[ "name" := VString "Sam" ]} [("name", VString "Sam")]).
  { unfold visits. by rewrite map_to_list_singleton. }
  assert (H2 : visits (list_to_map [("unused", VInt 7); ("name", VString "Max")])
                      [("unused", VInt 7); ("name", VString "Max")]).
  { apply visits_list_to_map. cbn. apply NoDup_cons. split; [|apply NoDup_singleton].
    rewrite list_elem_of_singleton. discriminate. }
  assert (H3 : visits ({[ "name" := VString "Sam" ]} ∪
                       list_to_map [("unused", VInt 7); ("name", VString "Max")])
                      [("name", VString "Sam"); ("unused", VInt 7)]).
  { unfold visits. cbn [list_to_map foldr uncurry fst snd].
    rewrite <- insert_union_singleton_l.
    rewrite (insert_insert_ne _ "name" "unused") by done.
    rewrite insert_insert_eq, (insert_insert_ne _ "unused" "name") by done.
    rewrite insert_empty, map_to_list_insert by done.
    by rewrite map_to_list_singleton. }
  split; [reflexivity|]. split; [reflexivity|]. split; [reflexivity|].
  split; [exact H1|]. split; [exact H2|]. split; [exact H3|].
  apply (ParseBody_twice_is_union template_hello
           {[ "name" := VString "Sam" ]}
           (list_to_map [("unused", VInt 7); ("name", VString "Max")])
           [("name", VString "Sam")]
           [("unused", VInt 7); ("name", VString "Max")]
           [("name", VString "Sam"); ("unused", VInt 7)]);
    [reflexivity | reflexivity | reflexivity | exact H1 | exact H2 | exact H3].
Defined.

(** X14.  On a plain template, with keys and value texts free of
    braces, [ParseBody] is idempotent: filling the result again from the
    same mapping, in any order, changes nothing. *)
Theorem ParseBody_idempotent (t : template) (parameters : gmap string Value)
    (kvs kvs' : list (string * Value)) :
  plain_template t = true ->
  forallb plain_entry kvs = true ->
  visits parameters kvs ->
  visits parameters kvs' ->
  ParseBody (ParseBody (flat t) kvs) kvs' = ParseBody (flat t) kvs.
Proof.
  intros Ht Hplain Hv Hv'.
  assert (Hplain' : forallb plain_entry kvs' = true).
  { apply (forallb_visits _ kvs); [|done]. unfold visits in *. by rewrite Hv, Hv'. }
  rewrite (ParseBody_render_twice t parameters parameters) by done.
  rewrite (ParseBody_render t parameters kvs) by done.
  by rewrite (idemp_L (∪) parameters).
Qed.

Lemma ParseBody_idempotent_witness :
  plain_template template_hello = true /\
  forallb plain_entry [("name", VString "Sam")] = true /\
  visits {[ "name" := VString "Sam" ]} [("name", VString "Sam")] /\
  ParseBody (ParseBody (flat template_hello) [("name", VString "Sam")])
            [("name", VString "Sam")] =
  ParseBody (flat template_hello) [("name", VString "Sam")].
Proof.
  assert (H1 : visits {[ "name" := VString "Sam" ]} [("name", VString "Sam")]).
  { unfold visits. by rewrite map_to_list_singleton. }
  split; [reflexivity|]. split; [reflexivity|]. split; [exact H1|].
  apply (ParseBody_idempotent template_hello {[ "name" := VString "Sam" ]}
           [("name", VString "Sam")] [("name", VString "Sam")]);
    [reflexivity | reflexivity | exact H1 | exact H1].
Defined.

Lemma occurs_text (key s rest : string) :
  brace_free s = true ->
  occurs (placeholder key) (s +:+ rest) = occurs (placeholder key) rest.
Proof.
  rewrite placeholder_unfold. induction s as [|ch s IH]; intros Hs; [done|].
  apply brace_free_cons in Hs as (Ho & _ & Hs).
  rewrite append_cons, occurs_cons, prefix_cons_ne by done. by apply IH.
Qed.

Lemma occurs_other (key key' rest : string) :
  brace_free key = true -> brace_free key' = true -> key' <> key ->
  occurs (placeholder key) (placeholder key' +:+ rest) = occurs (placeholder key) rest.
Proof.
  intros Hkey Hkey' Hne.
  rewrite (placeholder_unfold key'), !append_cons, append_assoc.
  rewrite occurs_cons.
  assert (H0 : String.prefix (placeholder key)
                 (String "{" (String "{" (key' +:+ "}}" +:+ rest))) = false).
  { rewrite placeholder_unfold, !prefix_cons_eq.
    destruct (String.prefix _ _) eqn:Hp; [|done].
    apply key_prefix_inj in Hp; congruence. }
  rewrite H0. cbn [orb]. rewrite occurs_cons.
  assert (H1 : String.prefix (placeholder key)
                 (String "{" (key' +:+ "}}" +:+ rest)) = false).
  { rewrite placeholder_unfold, prefix_cons_eq. destruct key' as [|b key'].
    - by rewrite append_nil_l, append_cons, prefix_cons_ne.
    - apply brace_free_cons in Hkey' as (Hb & _ & _).
      rewrite append_cons, prefix_cons_ne; [done | congruence]. }
  rewrite H1. cbn [orb]. rewrite occurs_text by done.
  rewrite !append_cons, append_nil_l, placeholder_unfold.
  by rewrite !occurs_cons, !prefix_cons_ne.
Qed.

Lemma occurs_flat (key : string) (t : template) :
  brace_free key = true ->
  plain_template t = true ->
  Placeholder key ∉ t ->
  occurs (placeholder key) (flat t) = false.
Proof.
  intros Hkey. induction t as [|sg t IH]; intros Ht Hnot; [done|].
  cbn [plain_template forallb] in Ht. apply andb_true_iff in Ht as [Hsg Ht].
  apply not_elem_of_cons in Hnot as [Hhead Htail].
  rewrite flat_cons. destruct sg as [s|key']; cbn [flat_segment plain_segment] in *.
  - rewrite occurs_text by done. by apply IH.
  - rewrite occurs_other by congruence. by apply IH.
Qed.

(** X15.  On a plain template, with keys and value texts free of
    braces, the result of [ParseBody] holds no placeholder of a key of
    the mapping any more. *)
Theorem ParseBody_leaves_no_supplied_placeholder (t : template)
    (parameters : gmap string Value) (kvs : list (string * Value))
    (key : string) (value : Value) :
  plain_template t = true ->
  forallb plain_entry kvs = true ->
  visits parameters kvs ->
  parameters !! key = Some value ->
  occurs (placeholder key) (ParseBody (flat t) kvs) = false.
Proof.
  intros Ht Hplain Hv Hlookup.
  rewrite (ParseBody_render t parameters kvs) by done.
  apply occurs_flat.
  - apply elem_of_map_to_list in Hlookup. unfold visits in Hv.
    rewrite <- Hv, list_elem_of_In in Hlookup.
    rewrite forallb_forall in Hplain. apply Hplain in Hlookup.
    unfold plain_entry in Hlookup. by apply andb_true_iff in Hlookup as [? _].
  - apply render_plain_map; [|done]. by apply (plain_values parameters kvs).
  - unfold render. rewrite list_elem_of_fmap. intros ([s|key'] & Heq & _); [done|].
    cbn [render_segment] in Heq.
    destruct (parameters !! key') as [value'|] eqn:Hkey'; [done|].
    injection Heq as ->. congruence.
Qed.

Lemma ParseBody_leaves_no_supplied_placeholder_witness :
  plain_template [Text "Hi "; Placeholder "name"; Text " and "; Placeholder "name"] = true /\
  forallb plain_entry [("name", VString "Sam")] = true /\
  visits {[ "name" := VString "Sam" ]} [("name", VString "Sam")] /\
  ({[ "name" := VString "Sam" ]} : gmap string Value) !! "name" = Some (VString "Sam") /\
  occurs (placeholder "name")
    (ParseBody (flat [Text "Hi "; Placeholder "name"; Text " and "; Placeholder "name"])
               [("name", VString "Sam")]) = false.
Proof.
  assert (H1 : visits {[ "name" := VString "Sam" ]} [("name", VString "Sam")]).
  { unfold visits. by rewrite map_to_list_singleton. }
  split; [reflexivity|]. split; [reflexivity|]. split; [exact H1|].
  split; [apply lookup_singleton_eq|].
  apply (ParseBody_leaves_no_supplied_placeholder _ {[ "name" := VString "Sam" ]}
           [("name", VString "Sam")] "name" (VString "Sam"));
    [reflexivity | reflexivity | exact H1 | apply lookup_singleton_eq].
Defined.


(** ** The error of the first rejected call *)

Lemma accepted_lookup (srv : Server) (h l : list Call) (n : nat) (call : Call) :
  accepted srv h l = true ->
  l !! n = Some call ->
  srv (h ++ take n l) call = None.
Proof.
  intros Hacc Hn. rewrite <- (take_drop_middle l n call Hn), accepted_app in Hacc.
  apply andb_true_iff in Hacc as [_ Hacc]. cbn [accepted] in Hacc.
  by destruct (srv (h ++ take n l) call).
Qed.

(** The first rejected call of a run is unique. *)
Lemma rejection_determines (srv : Server) (h L X : list Call) (ck : Call) (Y : list Call)
    (e' : string) (n : nat) (cn : Call) (e : string) :
  L = X ++ ck :: Y ->
  accepted srv h X = true ->
  srv (h ++ X) ck = Some e' ->
  L !! n = Some cn ->
  accepted srv h (take n L) = true ->
  srv (h ++ take n L) cn = Some e ->
  n = length X /\ e = e'.
Proof.
  intros -> HaccX Hrej Hn Hacc Hrejn.
  destruct (lt_eq_lt_dec n (length X)) as [[Hlt | ->] | Hgt].
  - exfalso. rewrite take_app_le in Hrejn by lia.
    rewrite lookup_app_l in Hn by done.
    pose proof (accepted_lookup srv h X n cn HaccX Hn). congruence.
  - rewrite take_app_length in Hrejn. rewrite list_lookup_middle in Hn by done.
    injection Hn as <-. split; [done | congruence].
  - exfalso.
    assert (Hk : (X ++ ck :: Y) !! length X = Some ck) by (by apply list_lookup_middle).
    assert (Hk' : take n (X ++ ck :: Y) !! length X = Some ck).
    { rewrite lookup_take_lt by done. exact Hk. }
    pose proof (accepted_lookup srv h _ _ _ Hacc Hk') as Hnone.
    rewrite take_take, Nat.min_l, take_app_length in Hnone by lia. congruence.
Qed.

Lemma error_at_handshake (c : SMTP) (email : Email) (n : nat) (call : Call) (e : string) :
  handshake c !! n = Some call ->
  error_at c email (length (take n (handshake c))) e = handshake_error n e.
Proof.
  intros Hn. apply handshake_lookup in Hn.
  rewrite length_take, Nat.min_l by (cbn; lia).
  unfold error_at. by destruct (Nat.ltb_spec n 4); [|lia].
Qed.

Lemma error_at_recipient (c : SMTP) (email : Email) (pre : list string) (addr : string)
    (post : list string) (e : string) :
  To email = pre ++ addr :: post ->
  error_at c email (length (handshake c ++ (CallRcpt <$> pre))) e = RecipientError e.
Proof.
  intros HTo. rewrite length_app, length_fmap. cbn [handshake length].
  unfold error_at. rewrite HTo, length_app. cbn [length].
  destruct (Nat.ltb_spec (4 + length pre) 4); [lia|].
  by destruct (Nat.ltb_spec (4 + length pre) (4 + (length pre + S (length post)))); [|lia].
Qed.

Lemma error_at_data (c : SMTP) (email : Email) (e : string) :
  error_at c email (length (handshake c ++ (CallRcpt <$> To email))) e = DataPhaseError e.
Proof.
  rewrite length_app, length_fmap. cbn [handshake length]. unfold error_at.
  destruct (Nat.ltb_spec (4 + length (To email)) 4); [lia|].
  destruct (Nat.ltb_spec (4 + length (To email)) (4 + length (To email))); [lia|].
  by rewrite Nat.eqb_refl.
Qed.

Lemma error_at_write (c : SMTP) (email : Email) (e : string) :
  error_at c email (length (handshake c ++ (CallRcpt <$> To email) ++ [CallData])) e =
  SendError c e.
Proof.
  rewrite !length_app, length_fmap. cbn [handshake length]. unfold error_at.
  destruct (Nat.ltb_spec (4 + (length (To email) + 1)) 4); [lia|].
  destruct (Nat.ltb_spec (4 + (length (To email) + 1)) (4 + length (To email))); [lia|].
  by destruct (Nat.eqb_spec (4 + (length (To email) + 1)) (4 + length (To email))); [lia|].
Qed.

(** X16.  The value [SendMail] returns is the error of the first call
    the peer rejects among the handshake, the recipients of [To],
    [Data] and the write: a [client error] of the handshake step, the
    [RecipientError], the [DataPhaseError] or the [SendError], each
    wrapping the text the peer gave. *)
Theorem SendMail_returns_first_rejection (srv : Server) (c : SMTP) (email : Email)
    (w0 : World) (n : nat) (call : Call) (e : string) :
  calls_to_succeed c email !! n = Some call ->
  accepted srv (wire w0) (take n (calls_to_succeed c email)) = true ->
  srv (wire w0 ++ take n (calls_to_succeed c email)) call = Some e ->
  (SendMail srv c email w0).1 = Some (error_at c email n e).
Proof.
  intros Hn Hacc Hrej.
  destruct (SendMail_run srv c email w0) as (r & calls & printed & Hrun & Hshape).
  rewrite Hrun. cbn [fst].
  inversion Hshape as [k ck e' Hk Hacck Hrejk | pre addr post msg HTo Hacck Hrejk
                       | e' Hacck Hrejk | wr cl Hacck Hwr Hcl]; subst.
  - destruct (rejection_determines srv (wire w0) (calls_to_succeed c email)
                (take k (handshake c)) ck
                (drop (S k) (handshake c) ++ (CallRcpt <$> To email) ++
                 [CallData; CallWrite (message email)]) e' n call e)
      as [-> ->]; [|done..|by rewrite (error_at_handshake c email k ck)].
    unfold calls_to_succeed.
    by rewrite <- (take_drop_middle (handshake c) k ck Hk) at 1; rewrite <- app_assoc.
  - destruct (rejection_determines srv (wire w0) (calls_to_succeed c email)
                (handshake c ++ (CallRcpt <$> pre)) (CallRcpt addr)
                ((CallRcpt <$> post) ++ [CallData; CallWrite (message email)]) msg n call e)
      as [-> ->]; [|done..|by rewrite (error_at_recipient c email pre addr post)].
    unfold calls_to_succeed. rewrite HTo, fmap_app, fmap_cons.
    by rewrite <- !app_assoc.
  - destruct (rejection_determines srv (wire w0) (calls_to_succeed c email)
                (handshake c ++ (CallRcpt <$> To email)) CallData
                [CallWrite (message email)] e' n call e)
      as [-> ->]; [|done..|by rewrite error_at_data].
    unfold calls_to_succeed. by rewrite <- !app_assoc.
  - destruct (srv (entered_data c email (wire w0)) (CallWrite (message email)))
      as [e'|] eqn:Hwrite.
    + destruct (rejection_determines srv (wire w0) (calls_to_succeed c email)
                  (handshake c ++ (CallRcpt <$> To email) ++ [CallData])
                  (CallWrite (message email)) [] e' n call e)
        as [-> ->]; [|done| |done..|by rewrite error_at_write].
      * unfold calls_to_succeed. by rewrite <- !app_assoc.
      * exact Hwrite.
    + exfalso.
      assert (Hall : accepted srv (wire w0) (calls_to_succeed c email) = true).
      { unfold calls_to_succeed.
        change [CallData; CallWrite (message email)]
          with ([CallData] ++ [CallWrite (message email)]).
        rewrite !app_assoc, accepted_app, <- !app_assoc, Hacck. cbn [andb accepted].
        fold (entered_data c email (wire w0)). by rewrite Hwrite. }
      pose proof (accepted_lookup srv (wire w0) _ n call Hall Hn). congruence.
Qed.

Lemma SendMail_returns_first_rejection_witness :
  calls_to_succeed client_example email_pair !! 7%nat = Some CallData /\
  accepted srv_no_data (wire fresh)
    (take 7 (calls_to_succeed client_example email_pair)) = true /\
  srv_no_data (wire fresh ++ take 7 (calls_to_succeed client_example email_pair)) CallData
    = Some "554 no data" /\
  (SendMail srv_no_data client_example email_pair fresh).1 =
    Some (error_at client_example email_pair 7 "554 no data") /\
  error_at client_example email_pair 7 "554 no data" = DataPhaseError "554 no data".
Proof.
  split; [reflexivity|]. split; [reflexivity|]. split; [reflexivity|].
  split; [|reflexivity].
  apply (SendMail_returns_first_rejection srv_no_data client_example email_pair fresh
           7 CallData "554 no data"); reflexivity.
Defined.
